(** * Guided-meditation site: session service and meditation player

    A shallow embedding of [app/models.py], [app/meditation_service.py]
    and [app/meditation_player.py].

    - Python integers are [Z]; [Optional[T]] is [option T].
    - The database is a pair of tables (lists of rows, in insertion
      order); a query is a function of the database.
    - A player method is a function [PlayerState -> option PlayerState];
      [None] stands for an uncaught [IndexError].
    - NiceGUI's one-shot timers live in a store owned by the event loop;
      [self.timer] is a handle (an index) into that store. *)

From stdpp Require Import base option list strings pretty numbers sorting.

Open Scope Z_scope.

(** ** app/models.py *)

Inductive DifficultyLevel := BEGINNER | INTERMEDIATE | ADVANCED.

Inductive MeditationType :=
  | BREATHING | MINDFULNESS | BODY_SCAN | LOVING_KINDNESS
  | CONCENTRATION | WALKING | VISUALIZATION.

(** A row of [meditation_instructions] ([created_at] is left out). *)
Record MeditationInstruction := mkInstruction {
  mi_id : option Z;
  session_id : Z;
  step_order : Z;
  instruction_text : string;
  duration_seconds : option Z;
  is_pause : bool
}.

(** A row of [meditation_sessions] together with its [instructions]
    relationship (the timestamps are left out). *)
Record MeditationSession := mkSession {
  ms_id : option Z;
  title : string;
  description : string;
  meditation_type : MeditationType;
  difficulty_level : DifficultyLevel;
  duration_minutes : Z;
  is_active : bool;
  instructions : list MeditationInstruction
}.

Record MeditationSessionCreate := mkSessionCreate {
  sc_title : string;
  sc_description : string;
  sc_meditation_type : MeditationType;
  sc_difficulty_level : DifficultyLevel;
  sc_duration_minutes : Z
}.

Record MeditationInstructionCreate := mkInstructionCreate {
  ic_session_id : Z;
  ic_step_order : Z;
  ic_instruction_text : string;
  ic_duration_seconds : option Z;
  ic_is_pause : bool
}.

Definition with_instructions (l : list MeditationInstruction)
    (m : MeditationSession) : MeditationSession :=
  mkSession (ms_id m) (title m) (description m) (meditation_type m)
    (difficulty_level m) (duration_minutes m) (is_active m) l.

(** ** app/meditation_service.py *)

Module MeditationService.

(** The two tables the service reads and writes, rows in insertion order. *)
Record Database := mkDatabase {
  meditation_sessions : list MeditationSession;
  meditation_instructions : list MeditationInstruction
}.

Definition empty_db : Database := mkDatabase [] [].

(** Primary keys are handed out in increasing order. *)
Definition next_key (keys : list (option Z)) : Z :=
  1 + foldr (fun k acc => Z.max (default 0 k) acc) 0 keys.

(** [session.get(MeditationSession, session_id)] *)
Definition db_get (db : Database) (key : Z) : option MeditationSession :=
  List.find (fun m => bool_decide (ms_id m = Some key)) (meditation_sessions db).

(** [ORDER BY step_order]: rows come back with ascending keys. The engine
    is modelled by a stable insertion sort; SQL itself leaves the order of
    rows with equal keys open. *)
Fixpoint insert_by_step_order (x : MeditationInstruction)
    (l : list MeditationInstruction) : list MeditationInstruction :=
  match l with
  | [] => [x]
  | y :: l' =>
      if step_order x <? step_order y then x :: y :: l'
      else y :: insert_by_step_order x l'
  end.

Definition order_by_step_order (l : list MeditationInstruction)
    : list MeditationInstruction :=
  foldr insert_by_step_order [] (reverse l).

(** [select(MeditationInstruction).where(session_id == key).order_by("step_order")] *)
Definition select_instructions (db : Database) (key : Z)
    : list MeditationInstruction :=
  order_by_step_order
    (filter (fun i => session_id i = key) (meditation_instructions db)).

Definition get_session_by_id (db : Database) (session_id : option Z)
    : option MeditationSession :=
  match session_id with
  | None => None
  | Some key =>
      match db_get db key with
      | None => None
      | Some meditation_session =>
          Some (with_instructions (select_instructions db key) meditation_session)
      end
  end.

(** Returns the new database and the refreshed row. *)
Definition create_session (session_data : MeditationSessionCreate) (db : Database)
    : Database * MeditationSession :=
  let row :=
    mkSession (Some (next_key (ms_id <$> meditation_sessions db)))
      (sc_title session_data) (sc_description session_data)
      (sc_meditation_type session_data) (sc_difficulty_level session_data)
      (sc_duration_minutes session_data) true [] in
  (mkDatabase (meditation_sessions db ++ [row]) (meditation_instructions db), row).

Definition add_instruction (instruction_data : MeditationInstructionCreate)
    (db : Database) : Database * MeditationInstruction :=
  let row :=
    mkInstruction (Some (next_key (mi_id <$> meditation_instructions db)))
      (ic_session_id instruction_data) (ic_step_order instruction_data)
      (ic_instruction_text instruction_data)
      (ic_duration_seconds instruction_data) (ic_is_pause instruction_data) in
  (mkDatabase (meditation_sessions db) (meditation_instructions db ++ [row]), row).

#[global] Instance MeditationType_eq_dec : EqDecision MeditationType.
Proof. solve_decision. Defined.

#[global] Instance DifficultyLevel_eq_dec : EqDecision DifficultyLevel.
Proof. solve_decision. Defined.

(** [select(MeditationSession).where(MeditationSession.is_active)]: the
    rows come back without their instructions. *)
Definition get_active_sessions (db : Database) : list MeditationSession :=
  filter (fun m => is_active m = true) (meditation_sessions db).

Definition get_sessions_by_type (meditation_type_ : MeditationType) (db : Database)
    : list MeditationSession :=
  filter (fun m => meditation_type m = meditation_type_ ∧ is_active m = true)
    (meditation_sessions db).

Definition get_sessions_by_difficulty (difficulty : DifficultyLevel) (db : Database)
    : list MeditationSession :=
  filter (fun m => difficulty_level m = difficulty ∧ is_active m = true)
    (meditation_sessions db).

Definition breathing_instructions : list (string * Z) :=
  [
    ("Welcome to this 10-minute breathing meditation. Find a comfortable seated position and close your eyes.",
     30);
    ("Take a moment to notice your natural breath, without trying to change it. Simply observe.",
     60);
    ("Now, begin to focus your attention on the sensation of breathing. Feel the air entering your nostrils.",
     90);
    ("As you breathe in, notice the expansion in your chest and belly. Breathe naturally and comfortably.",
     90);
    ("When your mind wanders to other thoughts, gently return your attention to your breath. This is normal.",
     90);
    ("Continue focusing on each inhale and exhale. Let your breath be your anchor to the present moment.",
     120);
    ("If you notice tension in your body, allow it to soften with each exhale.",
     90);
    ("Keep bringing your attention back to your breathing whenever you notice it has wandered.",
     120);
    ("Now, begin to deepen your breath slightly. Breathe in for 4 counts, hold for 2, exhale for 6.",
     120);
    ("Continue this gentle rhythm. In for 4, hold for 2, out for 6.",
     120);
    ("As we near the end, return to your natural breathing pattern.",
     60);
    ("Take a moment to notice how you feel. Wiggle your fingers and toes, and when ready, open your eyes.",
     45)
  ]%string.

Definition mindfulness_instructions : list (string * Z) :=
  [
    ("Welcome to this mindfulness meditation. Sit comfortably and allow your eyes to close gently.",
     30);
    ("Begin by taking three slow, deep breaths to settle into this moment.",
     45);
    ("Now, expand your awareness to include sounds around you. Don't judge or analyze, just notice.",
     90);
    ("What sounds do you hear? Perhaps birds, traffic, or the hum of appliances. Simply observe.",
     90);
    ("Now bring attention to physical sensations. Notice where your body touches the chair or floor.",
     90);
    ("Feel the temperature of the air on your skin. Is there any tension or comfort in your body?",
     90);
    ("Notice any emotions that might be present. Give them space without trying to change them.",
     90);
    ("Observe your thoughts as they come and go, like clouds passing through the sky.",
     120);
    ("You are the observer of your experience, not caught up in it. Rest in this awareness.",
     120);
    ("If you find yourself getting carried away by thoughts, gently return to simply observing.",
     90);
    ("Notice the quality of your mind right now. Is it busy, calm, scattered, or focused?",
     90);
    ("Continue resting in open awareness, welcoming whatever arises in your experience.",
     120);
    ("As we conclude, take a moment to appreciate this time you've given yourself.",
     60);
    ("Slowly wiggle your fingers and toes, and when you're ready, gently open your eyes.",
     45)
  ]%string.

Definition bodyscan_instructions : list (string * Z) :=
  [
    ("Welcome to this body scan meditation. Lie down comfortably or sit with your back straight.",
     30);
    ("Close your eyes and take several deep breaths to begin relaxing your entire body.",
     60);
    ("Start by bringing attention to the top of your head. Notice any sensations there.",
     75);
    ("Now move to your forehead. Allow any tension to soften and release.",
     75);
    ("Notice your eyes, cheeks, and jaw. Let these muscles relax completely.",
     75);
    ("Bring awareness to your neck and shoulders. Breathe into any areas of tension.",
     90);
    ("Move down to your arms. Feel your upper arms, elbows, forearms, and hands relaxing.",
     90);
    ("Focus on your chest area. Feel it rise and fall with each natural breath.",
     90);
    ("Notice your upper back and shoulder blades. Allow them to settle and release.",
     90);
    ("Bring attention to your abdomen. Let it be soft and relaxed.",
     75);
    ("Move to your lower back. Breathe into this area and allow it to soften.",
     90);
    ("Notice your hips and pelvis. Let any tightness dissolve with each exhale.",
     90);
    ("Feel your thighs, both the front and back muscles. Allow them to be heavy and relaxed.",
     90);
    ("Bring awareness to your knees, then your calves and shins.",
     75);
    ("Finally, notice your ankles and feet. Feel them completely relaxed.",
     75);
    ("Take a moment to feel your entire body as one unified, relaxed whole.",
     90);
    ("Rest in this feeling of complete relaxation for a few moments.",
     120);
    ("When you're ready, slowly wiggle your fingers and toes to reawaken your body.",
     60);
    ("Take your time returning to full awareness, and gently open your eyes.",
     45)
  ]%string.

(** [for i, (instruction_text, duration) in enumerate(l, i): add_instruction(...)] *)
Fixpoint add_enumerated (session_id : Z) (i : Z) (l : list (string * Z))
    (db : Database) : Database :=
  match l with
  | [] => db
  | (instruction_text, duration) :: l' =>
      add_enumerated session_id (i + 1) l'
        (add_instruction
           (mkInstructionCreate session_id i instruction_text (Some duration) false)
           db).1
  end.

Definition create_sample_data (db : Database) : Database :=
  let '(db1, breathing_session) :=
    create_session
      (mkSessionCreate "Basic Breathing Meditation"
         "A gentle introduction to meditation through focused breathing. Perfect for beginners."
         BREATHING BEGINNER 10) db in
  match ms_id breathing_session with
  | None => db1
  | Some breathing_id =>
      let db2 := add_enumerated breathing_id 1 breathing_instructions db1 in
      let '(db3, mindfulness_session) :=
        create_session
          (mkSessionCreate "Present Moment Awareness"
             "Cultivate awareness of the present moment through mindful observation."
             MINDFULNESS BEGINNER 15) db2 in
      match ms_id mindfulness_session with
      | None => db3
      | Some mindfulness_id =>
          let db4 := add_enumerated mindfulness_id 1 mindfulness_instructions db3 in
          let '(db5, bodyscan_session) :=
            create_session
              (mkSessionCreate "Full Body Relaxation"
                 "A soothing body scan meditation to release tension and promote deep relaxation."
                 BODY_SCAN INTERMEDIATE 20) db4 in
          match ms_id bodyscan_session with
          | None => db5
          | Some bodyscan_id =>
              add_enumerated bodyscan_id 1 bodyscan_instructions db5
          end
      end
  end.

End MeditationService.

(** ** NiceGUI, as far as the player uses it *)

Inductive TimerStatus := Pending | Fired | Cancelled.

(** [ui.timer(interval, callback, once=True)]. The player's only callback
    is [_advance_to_next_step], so the callback is not stored. *)
Record Timer := mkTimer {
  interval : Z;
  status : TimerStatus
}.

Definition is_pending (t : Timer) : bool :=
  match status t with Pending => true | _ => false end.

Definition cancel (t : Timer) : Timer := mkTimer (interval t) Cancelled.
Definition fired (t : Timer) : Timer := mkTimer (interval t) Fired.

(** [ui.notify(...)] *)
Inductive Notification :=
  | SessionNotFound    (* "Meditation session not found" *)
  | SessionComplete.   (* "Meditation session complete!" *)

(** Captions of the play button. *)
Inductive ButtonText :=
  | TextStart       (* "Start" *)
  | TextPause       (* "Pause" *)
  | TextResume      (* "Resume" *)
  | TextComplete.   (* "Complete" *)

(** Contents of the instruction label. *)
Inductive LabelText :=
  | TextClickPlay                   (* "Click play to begin your meditation journey" *)
  | TextInstruction (text : string) (* the text of an instruction *)
  | TextMeditationComplete.         (* "Meditation complete. Take a moment ..." *)

(** ** Python list access *)

Definition len {A} (l : list A) : Z := Z.of_nat (length l).

(** Truth value of an [Optional] object reference: [None] is false, a
    session, widget or timer object is true. *)
Definition truthy {A} (o : option A) : bool :=
  match o with Some _ => true | None => false end.

(** [l[i]]: negative indices count from the end; [None] is [IndexError]. *)
Definition py_index {A} (l : list A) (i : Z) : option A :=
  if 0 <=? i then l !! Z.to_nat i
  else if 0 <=? len l + i then l !! Z.to_nat (len l + i)
  else None.

(** [l[:k]]: never raises. *)
Definition py_slice_to {A} (l : list A) (k : Z) : list A :=
  if 0 <=? k then take (Z.to_nat k) l else take (Z.to_nat (len l + k)) l.

(** [f"{n:02d}"] *)
Definition format_02d (n : Z) : string :=
  let digits := pretty n in
  if (String.length digits <? 2)%nat then String.append "0" digits else digits.

(** ** app/meditation_player.py *)

Module MeditationPlayer.

(** The fields of a [MeditationPlayer], followed by the part of the
    NiceGUI client it acts on: the timer store and the notifications shown
    so far. A widget field is [Some content] once the widget exists. The
    progress value [a / b] is kept as the pair [(a, b)]. *)
Record PlayerState := mkPlayer {
  player_session_id : Z;
  session : option MeditationSession;
  current_step : Z;
  is_playing : bool;
  is_paused : bool;
  timer : option nat;
  instruction_label : option LabelText;
  progress_bar : option (Z * Z);
  time_label : option string;
  play_button : option ButtonText;
  step_info_label : option string;
  timers : list Timer;
  notifications : list Notification
}.

Definition set_current_step (v : Z) (s : PlayerState) : PlayerState :=
  mkPlayer (player_session_id s) (session s) v (is_playing s) (is_paused s)
    (timer s) (instruction_label s) (progress_bar s) (time_label s)
    (play_button s) (step_info_label s) (timers s) (notifications s).

Definition set_is_playing (v : bool) (s : PlayerState) : PlayerState :=
  mkPlayer (player_session_id s) (session s) (current_step s) v (is_paused s)
    (timer s) (instruction_label s) (progress_bar s) (time_label s)
    (play_button s) (step_info_label s) (timers s) (notifications s).

Definition set_is_paused (v : bool) (s : PlayerState) : PlayerState :=
  mkPlayer (player_session_id s) (session s) (current_step s) (is_playing s) v
    (timer s) (instruction_label s) (progress_bar s) (time_label s)
    (play_button s) (step_info_label s) (timers s) (notifications s).

Definition set_timer (v : option nat) (s : PlayerState) : PlayerState :=
  mkPlayer (player_session_id s) (session s) (current_step s) (is_playing s)
    (is_paused s) v (instruction_label s) (progress_bar s) (time_label s)
    (play_button s) (step_info_label s) (timers s) (notifications s).

Definition set_instruction_label (v : option LabelText) (s : PlayerState)
    : PlayerState :=
  mkPlayer (player_session_id s) (session s) (current_step s) (is_playing s)
    (is_paused s) (timer s) v (progress_bar s) (time_label s)
    (play_button s) (step_info_label s) (timers s) (notifications s).

Definition set_progress_bar (v : option (Z * Z)) (s : PlayerState) : PlayerState :=
  mkPlayer (player_session_id s) (session s) (current_step s) (is_playing s)
    (is_paused s) (timer s) (instruction_label s) v (time_label s)
    (play_button s) (step_info_label s) (timers s) (notifications s).

Definition set_time_label (v : option string) (s : PlayerState) : PlayerState :=
  mkPlayer (player_session_id s) (session s) (current_step s) (is_playing s)
    (is_paused s) (timer s) (instruction_label s) (progress_bar s) v
    (play_button s) (step_info_label s) (timers s) (notifications s).

Definition set_play_button (v : option ButtonText) (s : PlayerState) : PlayerState :=
  mkPlayer (player_session_id s) (session s) (current_step s) (is_playing s)
    (is_paused s) (timer s) (instruction_label s) (progress_bar s) (time_label s)
    v (step_info_label s) (timers s) (notifications s).

Definition set_step_info_label (v : option string) (s : PlayerState) : PlayerState :=
  mkPlayer (player_session_id s) (session s) (current_step s) (is_playing s)
    (is_paused s) (timer s) (instruction_label s) (progress_bar s) (time_label s)
    (play_button s) v (timers s) (notifications s).

Definition set_timers (v : list Timer) (s : PlayerState) : PlayerState :=
  mkPlayer (player_session_id s) (session s) (current_step s) (is_playing s)
    (is_paused s) (timer s) (instruction_label s) (progress_bar s) (time_label s)
    (play_button s) (step_info_label s) v (notifications s).

Definition set_notifications (v : list Notification) (s : PlayerState) : PlayerState :=
  mkPlayer (player_session_id s) (session s) (current_step s) (is_playing s)
    (is_paused s) (timer s) (instruction_label s) (progress_bar s) (time_label s)
    (play_button s) (step_info_label s) (timers s) v.

(** [ui.notify(n)] *)
Definition ui_notify (n : Notification) (s : PlayerState) : PlayerState :=
  set_notifications (notifications s ++ [n]) s.

(** [self.timer = ui.timer(d, self._advance_to_next_step, once=True)]:
    a new pending timer enters the store and [self.timer] refers to it. *)
Definition ui_timer (d : Z) (s : PlayerState) : PlayerState :=
  set_timer (Some (length (timers s)))
    (set_timers (timers s ++ [mkTimer d Pending]) s).

(** [if self.timer: self.timer.cancel(); self.timer = None] *)
Definition cancel_timer (s : PlayerState) : PlayerState :=
  match timer s with
  | Some h => set_timer None (set_timers (alter cancel h (timers s)) s)
  | None => s
  end.

(** [self.session.instructions], empty when there is no session. *)
Definition session_instructions (s : PlayerState) : list MeditationInstruction :=
  match session s with
  | Some m => instructions m
  | None => []
  end.

(** [not self.session or not self.session.instructions] *)
Definition no_instructions (s : PlayerState) : bool :=
  match session s with
  | None => true
  | Some m => match instructions m with [] => true | _ => false end
  end.

(** [sum(inst.duration_seconds or 0 for inst in instructions[:k])] *)
Definition elapsed_seconds (l : list MeditationInstruction) (k : Z) : Z :=
  foldr Z.add 0 ((fun inst => default 0 (duration_seconds inst)) <$> py_slice_to l k).

(** [f"{minutes:02d}:{seconds:02d}"] *)
Definition format_time (current_time : Z) : string :=
  let minutes := current_time / 60 in
  let seconds := current_time mod 60 in
  String.append (format_02d minutes) (String.append ":" (format_02d seconds)).

(** [f"Step {current_step + 1} of {total_steps}"] *)
Definition format_step_info (step total_steps : Z) : string :=
  String.append "Step "
    (String.append (pretty (step + 1)) (String.append " of " (pretty total_steps))).

Definition _update_display (s : PlayerState) : option PlayerState :=
  if no_instructions s then Some s
  else
    let total_steps := len (session_instructions s) in
    let s1 :=
      if truthy (progress_bar s) then
        set_progress_bar
          (Some (if 0 <? total_steps
                 then (current_step s, Z.max (total_steps - 1) 1)
                 else (0, 1))) s
      else s in
    let s2 :=
      if truthy (step_info_label s1) then
        set_step_info_label
          (Some (format_step_info (current_step s1) total_steps)) s1
      else s1 in
    s3 ← (if truthy (instruction_label s2) then
            if current_step s2 <? total_steps then
              instruction ← py_index (session_instructions s2) (current_step s2);
              Some (set_instruction_label
                      (Some (TextInstruction (instruction_text instruction))) s2)
            else Some s2
          else Some s2);
    Some (if truthy (time_label s3) then
            set_time_label
              (Some (format_time
                       (elapsed_seconds (session_instructions s3) (current_step s3))))
              s3
          else s3).

Definition _meditation_complete (s : PlayerState) : PlayerState :=
  let s1 := set_is_playing false s in
  let s2 := if truthy (play_button s1) then set_play_button (Some TextComplete) s1 else s1 in
  let s3 :=
    if truthy (instruction_label s2)
    then set_instruction_label (Some TextMeditationComplete) s2 else s2 in
  cancel_timer (ui_notify SessionComplete s3).

(** [d and d > 0] for [d : Optional[int]] *)
Definition has_duration (d : option Z) : bool :=
  match d with
  | Some n => negb (n =? 0) && (0 <? n)
  | None => false
  end.

Definition _start_current_step (s : PlayerState) : option PlayerState :=
  if no_instructions s then Some s
  else if len (session_instructions s) <=? current_step s
  then Some (_meditation_complete s)
  else
    instruction ← py_index (session_instructions s) (current_step s);
    s1 ← _update_display s;
    Some (if has_duration (duration_seconds instruction)
          then ui_timer (default 0 (duration_seconds instruction)) s1
          else s1).

Definition _start_meditation (s : PlayerState) : option PlayerState :=
  if no_instructions s then Some s
  else
    let s1 := set_is_paused false (set_is_playing true s) in
    let s2 := if truthy (play_button s1) then set_play_button (Some TextPause) s1 else s1 in
    if current_step s2 <? len (session_instructions s2)
    then _start_current_step s2
    else Some s2.

Definition _pause_meditation (s : PlayerState) : option PlayerState :=
  let s1 := set_is_paused true (set_is_playing false s) in
  let s2 := if truthy (play_button s1) then set_play_button (Some TextResume) s1 else s1 in
  Some (cancel_timer s2).

Definition _toggle_play (s : PlayerState) : option PlayerState :=
  if no_instructions s then Some s
  else if negb (is_playing s) then _start_meditation s
  else _pause_meditation s.

Definition _restart (s : PlayerState) : option PlayerState :=
  let s1 := cancel_timer s in
  let s2 := set_is_paused false (set_is_playing false (set_current_step 0 s1)) in
  let s3 := if truthy (play_button s2) then set_play_button (Some TextStart) s2 else s2 in
  _update_display s3.

Definition _previous_step (s : PlayerState) : option PlayerState :=
  if 0 <? current_step s then
    let s1 := cancel_timer s in
    let s2 := set_current_step (current_step s1 - 1) s1 in
    s3 ← _update_display s2;
    if is_playing s3 then _start_current_step s3 else Some s3
  else Some s.

Definition _next_step (s : PlayerState) : option PlayerState :=
  if no_instructions s then Some s
  else if current_step s <? len (session_instructions s) - 1 then
    let s1 := cancel_timer s in
    let s2 := set_current_step (current_step s1 + 1) s1 in
    s3 ← _update_display s2;
    if is_playing s3 then _start_current_step s3 else Some s3
  else Some s.

Definition _advance_to_next_step (s : PlayerState) : option PlayerState :=
  if negb (is_playing s) then Some s
  else
    let s1 := set_current_step (current_step s + 1) s in
    if negb (truthy (session s1))
       || (len (session_instructions s1) <=? current_step s1)
    then Some (_meditation_complete s1)
    else _start_current_step s1.

(** [__init__]: the fields, then [_load_session]. *)
Definition init (db : MeditationService.Database) (session_id : Z) : PlayerState :=
  let s :=
    mkPlayer session_id (MeditationService.get_session_by_id db (Some session_id))
      0 false false None None None None None None [] [] in
  if truthy (session s) then s else ui_notify SessionNotFound s.

(** [create]: build the widgets, then [_update_display]. Without a session
    only a "Session not found" label is shown and no widget is kept. *)
Definition create (s : PlayerState) : option PlayerState :=
  if truthy (session s) then
    _update_display
      (set_play_button (Some TextStart)
        (set_time_label (Some "00:00"%string)
          (set_step_info_label (Some "Step 0 of 0"%string)
            (set_progress_bar (Some (0, 1))
              (set_instruction_label (Some TextClickPlay) s)))))
  else Some s.

(** What can happen to a player once its page is shown: a click on one of
    the four buttons, or the interval of timer [h] running out. *)
Inductive Event :=
  | ClickPlay
  | ClickPrevious
  | ClickNext
  | ClickRestart
  | Elapse (h : nat).

(** When the interval of a one-shot timer runs out, the event loop calls
    its callback unless the timer was cancelled; a timer fires once. *)
Definition elapse (h : nat) (s : PlayerState) : option PlayerState :=
  match timers s !! h with
  | Some t =>
      if is_pending t
      then _advance_to_next_step (set_timers (alter fired h (timers s)) s)
      else Some s
  | None => Some s
  end.

Definition handle (e : Event) (s : PlayerState) : option PlayerState :=
  match e with
  | ClickPlay => _toggle_play s
  | ClickPrevious => _previous_step s
  | ClickNext => _next_step s
  | ClickRestart => _restart s
  | Elapse h => elapse h s
  end.

Fixpoint run (events : list Event) (s : PlayerState) : option PlayerState :=
  match events with
  | [] => Some s
  | e :: events' => s' ← handle e s; run events' s'
  end.

(** [meditation_page]: [MeditationPlayer(session_id)], then [create()]. *)
Definition meditation_page (db : MeditationService.Database) (session_id : Z)
    : option PlayerState :=
  create (init db session_id).

(** The page of a session [m] that was found: the player holds [m]
    itself, whatever its instruction list. *)
Definition loaded (m : MeditationSession) : option PlayerState :=
  create (mkPlayer (default 0 (ms_id m)) (Some m)
            0 false false None None None None None None [] []).

(** The states a page of session [m] can be in: those reached from the
    freshly created page by clicks and by timers running out. *)
Definition reachable (m : MeditationSession) (s : PlayerState) : Prop :=
  exists s0 events, loaded m = Some s0 /\ run events s0 = Some s.

(** The timers of the store that are still pending. *)
Definition pending_timers (s : PlayerState) : list Timer :=
  List.filter is_pending (timers s).

(** The number of completion notifications shown so far. *)
Definition completions (s : PlayerState) : nat :=
  length (List.filter (fun n => match n with SessionComplete => true | _ => false end)
            (notifications s)).

End MeditationPlayer.

(** ** app/meditation_library.py *)

(** The [value] of the members of the two [str] enums of [app/models.py]. *)
Definition MeditationType_value (t : MeditationType) : string :=
  match t with
  | BREATHING => "breathing"
  | MINDFULNESS => "mindfulness"
  | BODY_SCAN => "body_scan"
  | LOVING_KINDNESS => "loving_kindness"
  | CONCENTRATION => "concentration"
  | WALKING => "walking"
  | VISUALIZATION => "visualization"
  end.

Definition DifficultyLevel_value (d : DifficultyLevel) : string :=
  match d with
  | BEGINNER => "beginner"
  | INTERMEDIATE => "intermediate"
  | ADVANCED => "advanced"
  end.

(** Truth value of a [str]: the empty string is false. A member of a
    [str] enum has the truth value of its [value]. *)
Definition str_truthy (s : string) : bool :=
  match s with EmptyString => false | String _ _ => true end.

Definition is_lower (c : Ascii.ascii) : bool :=
  ((97 <=? Ascii.nat_of_ascii c) && (Ascii.nat_of_ascii c <=? 122))%nat.

Definition is_upper (c : Ascii.ascii) : bool :=
  ((65 <=? Ascii.nat_of_ascii c) && (Ascii.nat_of_ascii c <=? 90))%nat.

Definition to_upper (c : Ascii.ascii) : Ascii.ascii :=
  if is_lower c then Ascii.ascii_of_nat (Ascii.nat_of_ascii c - 32) else c.

Definition to_lower (c : Ascii.ascii) : Ascii.ascii :=
  if is_upper c then Ascii.ascii_of_nat (Ascii.nat_of_ascii c + 32) else c.

(** The characters [_] and blank. *)
Definition underscore : Ascii.ascii := Ascii.ascii_of_nat 95.
Definition space : Ascii.ascii := Ascii.ascii_of_nat 32.

(** [s.replace(old, new)] for one-character [old] and [new]. *)
Fixpoint str_replace (old new : Ascii.ascii) (s : string) : string :=
  match s with
  | EmptyString => EmptyString
  | String c s' =>
      String (if Ascii.eqb c old then new else c) (str_replace old new s')
  end.

(** [s.title()] on ASCII text: a letter after a letter is lower-cased,
    any other letter is upper-cased. *)
Fixpoint title_from (previous_is_cased : bool) (s : string) : string :=
  match s with
  | EmptyString => EmptyString
  | String c s' =>
      String (if previous_is_cased then to_lower c else to_upper c)
        (title_from (is_lower c || is_upper c) s')
  end.

Definition str_title (s : string) : string := title_from false s.

Module MeditationLibrary.

(** What a session card shows, and where its Start button leads: the
    [session.id] put in the address [/meditation/{session_id}]. The
    difficulty icon is given by its number of stars; the colours of the
    card are left out. *)
Record SessionCard := mkCard {
  card_title : string;
  card_description : string;
  card_duration : string;
  card_type : string;
  card_stars : nat;
  card_difficulty : string;
  card_target : option Z
}.

(** The children of [session_container]. *)
Inductive Element :=
  | LabelNoSessionsFound
  | LabelNoSessionsMatch
  | Card (card : SessionCard).

(** A library page: the attributes of the [MeditationLibrary] object, and
    the values of the two selects made by [_create_filters]. *)
Record LibraryState := mkLibrary {
  sessions : list MeditationSession;
  filtered_sessions : list MeditationSession;
  selected_type : option MeditationType;
  selected_difficulty : option DifficultyLevel;
  session_container : option (list Element);
  no_results_label : option Element;
  type_select : option MeditationType;
  difficulty_select : option DifficultyLevel
}.

Definition set_sessions v (s : LibraryState) : LibraryState :=
  mkLibrary v (filtered_sessions s) (selected_type s) (selected_difficulty s)
    (session_container s) (no_results_label s) (type_select s)
    (difficulty_select s).

Definition set_filtered_sessions v (s : LibraryState) : LibraryState :=
  mkLibrary (sessions s) v (selected_type s) (selected_difficulty s)
    (session_container s) (no_results_label s) (type_select s)
    (difficulty_select s).

Definition set_selected_type v (s : LibraryState) : LibraryState :=
  mkLibrary (sessions s) (filtered_sessions s) v (selected_difficulty s)
    (session_container s) (no_results_label s) (type_select s)
    (difficulty_select s).

Definition set_selected_difficulty v (s : LibraryState) : LibraryState :=
  mkLibrary (sessions s) (filtered_sessions s) (selected_type s) v
    (session_container s) (no_results_label s) (type_select s)
    (difficulty_select s).

Definition set_session_container v (s : LibraryState) : LibraryState :=
  mkLibrary (sessions s) (filtered_sessions s) (selected_type s)
    (selected_difficulty s) v (no_results_label s) (type_select s)
    (difficulty_select s).

Definition set_no_results_label v (s : LibraryState) : LibraryState :=
  mkLibrary (sessions s) (filtered_sessions s) (selected_type s)
    (selected_difficulty s) (session_container s) v (type_select s)
    (difficulty_select s).

Definition set_type_select v (s : LibraryState) : LibraryState :=
  mkLibrary (sessions s) (filtered_sessions s) (selected_type s)
    (selected_difficulty s) (session_container s) (no_results_label s) v
    (difficulty_select s).

Definition set_difficulty_select v (s : LibraryState) : LibraryState :=
  mkLibrary (sessions s) (filtered_sessions s) (selected_type s)
    (selected_difficulty s) (session_container s) (no_results_label s)
    (type_select s) v.

(** [__init__] *)
Definition init : LibraryState :=
  mkLibrary [] [] None None None None None None.

(** The labels of the options of the two selects of [_create_filters]. *)
Definition type_options (v : option MeditationType) : string :=
  match v with
  | None => "All Types"
  | Some BREATHING => "Breathing"
  | Some MINDFULNESS => "Mindfulness"
  | Some BODY_SCAN => "Body Scan"
  | Some LOVING_KINDNESS => "Loving Kindness"
  | Some CONCENTRATION => "Concentration"
  | Some WALKING => "Walking"
  | Some VISUALIZATION => "Visualization"
  end.

Definition difficulty_options (v : option DifficultyLevel) : string :=
  match v with
  | None => "All Levels"
  | Some BEGINNER => "Beginner"
  | Some INTERMEDIATE => "Intermediate"
  | Some ADVANCED => "Advanced"
  end.

(** [_create_session_card] *)
Definition _create_session_card (session : MeditationSession) : SessionCard :=
  mkCard (title session) (description session)
    (pretty (duration_minutes session) +:+ " min")
    (str_title (str_replace underscore space
                  (MeditationType_value (meditation_type session))))
    (if bool_decide (difficulty_level session = BEGINNER) then 1
     else if bool_decide (difficulty_level session = INTERMEDIATE) then 2
     else 3)%nat
    (str_title (DifficultyLevel_value (difficulty_level session)))
    (ms_id session).

(** [_update_sessions_display] *)
Definition _update_sessions_display (s : LibraryState) : LibraryState :=
  if negb (truthy (session_container s)) then s
  else
    match filtered_sessions s with
    | [] => set_session_container (Some [LabelNoSessionsMatch]) s
    | _ =>
        set_session_container
          (Some ((fun session => Card (_create_session_card session))
                   <$> filtered_sessions s)) s
    end.

(** [_apply_filters] *)
Definition _apply_filters (s : LibraryState) : LibraryState :=
  let s := set_filtered_sessions (sessions s) s in
  let s :=
    match selected_type s with
    | Some t =>
        if str_truthy (MeditationType_value t)
        then set_filtered_sessions
               (filter (fun x => meditation_type x = t) (filtered_sessions s)) s
        else s
    | None => s
    end in
  let s :=
    match selected_difficulty s with
    | Some d =>
        if str_truthy (DifficultyLevel_value d)
        then set_filtered_sessions
               (filter (fun x => difficulty_level x = d) (filtered_sessions s)) s
        else s
    | None => s
    end in
  _update_sessions_display s.

Definition _filter_by_type (meditation_type_ : option MeditationType)
    (s : LibraryState) : LibraryState :=
  _apply_filters (set_selected_type meditation_type_ s).

Definition _filter_by_difficulty (difficulty : option DifficultyLevel)
    (s : LibraryState) : LibraryState :=
  _apply_filters (set_selected_difficulty difficulty s).

Definition _clear_filters (s : LibraryState) : LibraryState :=
  _apply_filters (set_selected_difficulty None (set_selected_type None s)).

(** [_load_sessions]: the only method that touches the store. The
    service calls of the model do not raise, so the [except] branch is
    not entered. *)
Definition _load_sessions (db : MeditationService.Database) (s : LibraryState)
    : MeditationService.Database * LibraryState :=
  let s := set_sessions (MeditationService.get_active_sessions db) s in
  let '(db, s) :=
    match sessions s with
    | [] =>
        let db' := MeditationService.create_sample_data db in
        (db', set_sessions (MeditationService.get_active_sessions db') s)
    | _ => (db, s)
    end in
  (db, _update_sessions_display (set_filtered_sessions (sessions s) s)).

(** [_create_filters]: both selects start at [None]. *)
Definition _create_filters (s : LibraryState) : LibraryState :=
  set_difficulty_select None (set_type_select None s).

(** [_create_sessions_grid]: the container holds a hidden label. *)
Definition _create_sessions_grid (s : LibraryState) : LibraryState :=
  set_no_results_label (Some LabelNoSessionsFound)
    (set_session_container (Some [LabelNoSessionsFound]) s).

(** [create]: header, filters, grid, then [_load_sessions]. *)
Definition create (db : MeditationService.Database) (s : LibraryState)
    : MeditationService.Database * LibraryState :=
  _load_sessions db (_create_sessions_grid (_create_filters s)).

(** The page [/]: [MeditationLibrary()], then [create()]. *)
Definition index (db : MeditationService.Database)
    : MeditationService.Database * LibraryState :=
  create db init.

(** NiceGUI's [set_value]: the select takes the value and, when the value
    changed, its [on_change] handler is called. Choosing an option in the
    browser sets the value in the same way. *)
Definition type_select_set_value (v : option MeditationType) (s : LibraryState)
    : LibraryState :=
  if bool_decide (type_select s = v) then s
  else _filter_by_type v (set_type_select v s).

Definition difficulty_select_set_value (v : option DifficultyLevel)
    (s : LibraryState) : LibraryState :=
  if bool_decide (difficulty_select s = v) then s
  else _filter_by_difficulty v (set_difficulty_select v s).

(** What the visitor can do on the page: choose an option of one of the
    two selects, or click Clear Filters. *)
Inductive Event :=
  | ChooseType (v : option MeditationType)
  | ChooseDifficulty (v : option DifficultyLevel)
  | ClickClear.

Definition handle (e : Event) (s : LibraryState) : LibraryState :=
  match e with
  | ChooseType v => type_select_set_value v s
  | ChooseDifficulty v => difficulty_select_set_value v s
  | ClickClear =>
      _clear_filters
        (difficulty_select_set_value None (type_select_set_value None s))
  end.

Definition run (events : list Event) (s : LibraryState) : LibraryState :=
  foldl (fun s e => handle e s) s events.

(** The cards the page shows, in order. *)
Definition cards (s : LibraryState) : list SessionCard :=
  default [] (session_container s) ≫= fun e =>
    match e with Card c => [c] | _ => [] end.

End MeditationLibrary.


(** ** Auxiliary definitions for the statements *)

Import MeditationService.

(** The keys of a list of instructions, in order. *)
Definition step_orders (l : list MeditationInstruction) : list Z :=
  step_order <$> l.

(** The three instructions of [test_instructions_ordered_correctly],
    added with step orders 3, 1, 2. *)
Definition ordered_session_db : Database :=
  let db0 :=
    (create_session (mkSessionCreate "Ordered Session"
       "Test session for instruction ordering" BREATHING BEGINNER 5) empty_db).1 in
  let db1 :=
    (add_instruction (mkInstructionCreate 1 3 "Third instruction" (Some 30) false) db0).1 in
  let db2 :=
    (add_instruction (mkInstructionCreate 1 1 "First instruction" (Some 30) false) db1).1 in
  (add_instruction (mkInstructionCreate 1 2 "Second instruction" (Some 30) false) db2).1.

Import MeditationPlayer.

(** [sum(d or 0 for d in durations)] *)
Definition sum_durations (l : list MeditationInstruction) : Z :=
  foldr Z.add 0 ((fun inst => default 0 (duration_seconds inst)) <$> l).

(** The interval the player is waiting on, read off the player's own
    fields: it plays, its step is inside the list and that step has a
    duration. *)
Definition armed_delay (s : PlayerState) : option Z :=
  if is_playing s && (current_step s <? len (session_instructions s)) then
    inst ← session_instructions s !! Z.to_nat (current_step s);
    if has_duration (duration_seconds inst) then duration_seconds inst else None
  else None.

(** Whether timer [h] of the store is still pending. *)
Definition timer_pending (s : PlayerState) (h : nat) : bool :=
  match timers s !! h with
  | Some t => is_pending t
  | None => false
  end.

(** From [s] to [s'] the timer store kept its size, or [s'] is the
    result of arming one timer on a state [s1] that had no pending timer. *)
Definition arms_cleanly (s s' : PlayerState) : Prop :=
  length (timers s') = length (timers s)
  ∨ ∃ d s1, s' = ui_timer d s1
            ∧ pending_timers s1 = []
            ∧ length (timers s1) = length (timers s).

(** The step an event leads to, read off the guards of its method. *)
Definition next_index (e : Event) (s : PlayerState) : Z :=
  match e with
  | ClickPlay => current_step s
  | ClickPrevious =>
      if 0 <? current_step s then current_step s - 1 else current_step s
  | ClickNext =>
      if current_step s <? len (session_instructions s) - 1
      then current_step s + 1 else current_step s
  | ClickRestart => 0
  | Elapse h =>
      if timer_pending s h then current_step s + 1 else current_step s
  end.

(** The event that ends the session: the timer of the last step runs out. *)
Definition completes (e : Event) (s : PlayerState) : bool :=
  match e with
  | Elapse h =>
      timer_pending s h
      && (current_step s + 1 =? len (session_instructions s))
  | _ => false
  end.

(** The state of the page of [m] after [events]. *)
Definition page_after (m : MeditationSession) (events : list Event)
    : option PlayerState :=
  s0 ← loaded m; run events s0.

(** A session with one instruction per given duration, numbered from 1. *)
Definition session_of (durations : list (option Z)) : MeditationSession :=
  mkSession (Some 1) "Session" "A session" BREATHING BEGINNER 5 true
    (imap (fun i d =>
             mkInstruction (Some (Z.of_nat i + 1)) 1 (Z.of_nat i + 1)
               "Breathe" d false) durations).

(** The session of the walk-through: durations 30, 0 and 45 seconds. *)
Definition demo_session : MeditationSession :=
  session_of [Some 30; Some 0; Some 45].

(** Two states that differ in widgets only. *)
Definition same_core (s s' : PlayerState) : Prop :=
  session s' = session s
  ∧ current_step s' = current_step s
  ∧ is_playing s' = is_playing s
  ∧ is_paused s' = is_paused s
  ∧ timer s' = timer s
  ∧ timers s' = timers s
  ∧ notifications s' = notifications s.

(** What holds of every state of a page (see [reachable_Inv]). *)
Record Inv (s : PlayerState) : Prop := mkInv {
  inv_session : truthy (session s) = true;
  inv_range : 0 ≤ current_step s ≤ len (session_instructions s);
  inv_playing : is_playing s = true → no_instructions s = false;
  inv_pending :
    pending_timers s =
      match armed_delay s with Some d => [mkTimer d Pending] | None => [] end;
  inv_handle :
    ∀ h t, timers s !! h = Some t → is_pending t = true → timer s = Some h;
  inv_display :
    time_label s =
      Some (format_time
              (elapsed_seconds (session_instructions s)
                 (if current_step s <? len (session_instructions s)
                  then current_step s
                  else len (session_instructions s) - 1)));
  inv_completed :
    0 < len (session_instructions s) →
    current_step s = len (session_instructions s) →
    (1 ≤ completions s)%nat
}.

(** ** Auxiliary definitions for the further properties *)

(** The primary keys of the stored sessions. *)
Definition session_ids (db : Database) : list (option Z) :=
  ms_id <$> meditation_sessions db.

(** A well-formed store: every session has a positive key, keys are not
    shared, and every instruction belongs to a stored session. *)
Record db_ok (db : Database) : Prop := mkDbOk {
  ok_keys : ∀ m, m ∈ meditation_sessions db → ∃ k, ms_id m = Some k ∧ 1 ≤ k;
  ok_unique : NoDup (session_ids db);
  ok_owner : ∀ i, i ∈ meditation_instructions db → Some (session_id i) ∈ session_ids db
}.

(** What a user sees of an instruction: position, text and duration. *)
Definition instruction_view (i : MeditationInstruction) : Z * string * option Z :=
  (step_order i, instruction_text i, duration_seconds i).

(** The views of a list of (text, duration) pairs numbered from [i]. *)
Fixpoint enumerated_views (i : Z) (l : list (string * Z))
    : list (Z * string * option Z) :=
  match l with
  | [] => []
  | (text, duration) :: l' => (i, text, Some duration) :: enumerated_views (i + 1) l'
  end.

(** The rows [add_enumerated] appends to an instruction table. *)
Fixpoint enumerated_rows (session_id i : Z) (l : list (string * Z))
    (table : list MeditationInstruction) : list MeditationInstruction :=
  match l with
  | [] => []
  | (text, duration) :: l' =>
      let row :=
        mkInstruction (Some (next_key (mi_id <$> table))) session_id i text
          (Some duration) false in
      row :: enumerated_rows session_id (i + 1) l' (table ++ [row])
  end.

(** One block of [create_sample_data]: a session, then its instructions. *)
Definition seed (data : MeditationSessionCreate) (l : list (string * Z))
    (db : Database) : Database :=
  add_enumerated (next_key (session_ids db)) 1 l (create_session data db).1.

(** The last step the display was refreshed for: the current step, or the
    last one once the step has left the list. *)
Definition shown_index (m : MeditationSession) (step : Z) : Z :=
  if step <? len (instructions m) then step else len (instructions m) - 1.

(** What the instruction label shows at a step of a non-empty session. *)
Definition label_of (m : MeditationSession) (step : Z) : LabelText :=
  if step <? len (instructions m) then
    match py_index (instructions m) step with
    | Some inst => TextInstruction (instruction_text inst)
    | None => TextClickPlay
    end
  else TextMeditationComplete.

(** The state of the page of a non-empty session [m], as determined by
    its step, the caption of its play button, and the timers and
    notifications so far. *)
Definition page_state (m : MeditationSession) (step : Z) (caption : ButtonText)
    (tm : option nat) (tms : list Timer) (nots : list Notification)
    : PlayerState :=
  mkPlayer (default 0 (ms_id m)) (Some m) step
    (match caption with TextPause => true | _ => false end)
    (match caption with TextResume => true | _ => false end)
    tm
    (Some (label_of m step))
    (Some (shown_index m step, Z.max (len (instructions m) - 1) 1))
    (Some (format_time (elapsed_seconds (instructions m) (shown_index m step))))
    (Some caption)
    (Some (format_step_info (shown_index m step) (len (instructions m))))
    tms nots.

(** Everything of a state but the timer store, the timer handle and the
    notifications. *)
Definition visible (s : PlayerState) :=
  (player_session_id s, session s, current_step s, is_playing s, is_paused s,
   instruction_label s, progress_bar s, time_label s, play_button s,
   step_info_label s).

(** The timer handle and store after [cancel_timer]. *)
Definition cancelled (tm : option nat) (tms : list Timer) : list Timer :=
  match tm with
  | Some h => alter cancel h tms
  | None => tms
  end.

(** The timer handle and store after [_start_current_step] at a step. *)
Definition armed_timer (m : MeditationSession) (step : Z) (tm : option nat)
    (tms : list Timer) : option nat * list Timer :=
  match instructions m !! Z.to_nat step with
  | Some inst =>
      if has_duration (duration_seconds inst)
      then (Some (length tms),
            tms ++ [mkTimer (default 0 (duration_seconds inst)) Pending])
      else (tm, tms)
  | None => (tm, tms)
  end.

(** Step and caption after an event, for a page in step [step] with
    caption [caption]; [pend] tells whether the timer of an [Elapse] is
    pending. *)
Definition visible_next (m : MeditationSession) (e : Event) (pend : bool)
    (step : Z) (caption : ButtonText) : Z * ButtonText :=
  match e with
  | ClickPlay =>
      (step, match caption with TextPause => TextResume | _ => TextPause end)
  | ClickPrevious => (if 0 <? step then step - 1 else step, caption)
  | ClickNext =>
      (if step <? len (instructions m) - 1 then step + 1 else step, caption)
  | ClickRestart => (0, TextStart)
  | Elapse _ =>
      match pend, caption with
      | true, TextPause =>
          (step + 1,
           if step + 1 <? len (instructions m) then TextPause else TextComplete)
      | _, _ => (step, caption)
      end
  end.

(** Whether the timer of an [Elapse] event is pending; false for clicks. *)
Definition event_pending (e : Event) (s : PlayerState) : bool :=
  match e with
  | Elapse h => timer_pending s h
  | _ => false
  end.

(** The states of the shape [page_state m ...]. *)
Definition is_page (m : MeditationSession) (s : PlayerState) : Prop :=
  ∃ caption,
    s = page_state m (current_step s) caption (timer s) (timers s)
          (notifications s).

(** The page in step [k] of an unattended play-through: playing, the
    timer with handle [k] pending, nothing notified. *)
Definition autoplay_at (m : MeditationSession) (k : nat) (s : PlayerState)
    : Prop :=
  ∃ tms t, s = page_state m (Z.of_nat k) TextPause (Some k) tms []
    ∧ length tms = S k ∧ tms !! k = Some t ∧ is_pending t = true.

(** Whether a session passes the two selects of the library page: [None]
    lets every session pass. *)
Definition matches (t : option MeditationType) (d : option DifficultyLevel)
    (m : MeditationSession) : bool :=
  match t with Some t' => bool_decide (meditation_type m = t') | None => true end
  && match d with Some d' => bool_decide (difficulty_level m = d') | None => true end.

(** The children of the container when it shows the list [l]. *)
Definition elements_of (l : list MeditationSession)
    : list MeditationLibrary.Element :=
  match l with
  | [] => [MeditationLibrary.LabelNoSessionsMatch]
  | _ =>
      (fun m => MeditationLibrary.Card (MeditationLibrary._create_session_card m))
        <$> l
  end.

(** The library page over the sessions [all] whose selects show [t] and
    [d]. *)
Definition library_page (all : list MeditationSession)
    (t : option MeditationType) (d : option DifficultyLevel)
    : MeditationLibrary.LibraryState :=
  MeditationLibrary.mkLibrary all (filter (fun m => matches t d m) all) t d
    (Some (elements_of (filter (fun m => matches t d m) all)))
    (Some MeditationLibrary.LabelNoSessionsFound) t d.

(** What the two selects show after an event, and after a list of
    events on a fresh page. *)
Definition choose (e : MeditationLibrary.Event)
    (td : option MeditationType * option DifficultyLevel)
    : option MeditationType * option DifficultyLevel :=
  match e with
  | MeditationLibrary.ChooseType v => (v, td.2)
  | MeditationLibrary.ChooseDifficulty v => (td.1, v)
  | MeditationLibrary.ClickClear => (None, None)
  end.

Definition chosen (events : list MeditationLibrary.Event)
    : option MeditationType * option DifficultyLevel :=
  foldl (fun td e => choose e td) (None, None) events.


(** The card of the first sample session. *)
Definition breathing_card : MeditationLibrary.SessionCard :=
  MeditationLibrary.mkCard "Basic Breathing Meditation"
    "A gentle introduction to meditation through focused breathing. Perfect for beginners."
    "10 min" "Breathing" 1 "Beginner" (Some 1).

(** * Properties of the session service *)

Module ServiceFacts.

Lemma insert_by_step_order_perm x l :
  insert_by_step_order x l ≡ₚ x :: l.
Proof.
  induction l as [|y l IH]; simpl; [done|].
  destruct (step_order x <? step_order y); [done|].
  rewrite IH. apply Permutation_swap.
Qed.

Lemma order_by_step_order_perm l : order_by_step_order l ≡ₚ l.
Proof.
  unfold order_by_step_order.
  rewrite <- (reverse_Permutation l) at 2.
  induction (reverse l) as [|x r IH]; simpl; [done|].
  by rewrite insert_by_step_order_perm, IH.
Qed.

Lemma insert_by_step_order_sorted x l :
  StronglySorted Z.le (step_orders l) →
  StronglySorted Z.le (step_orders (insert_by_step_order x l)).
Proof.
  unfold step_orders. induction l as [|y l IH]; simpl; intros Hs.
  - repeat constructor.
  - inversion Hs as [|? ? Hl Hall]; subst.
    destruct (Z.ltb_spec (step_order x) (step_order y)) as [Hlt|Hge]; simpl.
    + constructor; [done|]. constructor; [lia|].
      eapply Forall_impl; [exact Hall|]. simpl. intros; lia.
    + constructor; [by apply IH|].
      assert (Hp := insert_by_step_order_perm x l).
      apply (fmap_Permutation step_order) in Hp.
      rewrite Hp. simpl. by constructor.
Qed.

Lemma order_by_step_order_sorted l :
  StronglySorted Z.le (step_orders (order_by_step_order l)).
Proof.
  unfold order_by_step_order.
  induction (reverse l) as [|x r IH]; simpl.
  - constructor.
  - by apply insert_by_step_order_sorted.
Qed.

Lemma db_get_in db key row :
  db_get db key = Some row → row ∈ meditation_sessions db ∧ ms_id row = Some key.
Proof.
  unfold db_get. intros H. apply find_some in H as [Hin Hk].
  split; [by apply list_elem_of_In|]. by apply bool_decide_eq_true in Hk.
Qed.

Lemma db_get_missing db key :
  (∀ m, m ∈ meditation_sessions db → ms_id m ≠ Some key) → db_get db key = None.
Proof.
  intros Hno. unfold db_get.
  destruct (find _ _) as [row|] eqn:Hf; [|done].
  apply find_some in Hf as [Hin Hk].
  apply bool_decide_eq_true in Hk. apply list_elem_of_In in Hin.
  by destruct (Hno row Hin).
Qed.

Example insertion_order_3_1_2 :
  (λ m, instruction_text <$> instructions m)
    <$> get_session_by_id ordered_session_db (Some 1)
  = Some ["First instruction"; "Second instruction"; "Third instruction"]%string.
Proof. reflexivity. Qed.

(** C8. For a session id present in the store, [get_session_by_id]
    returns that session's row carrying exactly the instructions of the
    session, in ascending [step_order]. The order of insertion does not
    matter: a store holding the same instruction rows in another order
    yields the same sequence of step orders. *)
Theorem get_session_by_id_sorted (db db' : Database) (key : Z)
    (row : MeditationSession) :
  db_get db key = Some row →
  meditation_sessions db' = meditation_sessions db →
  meditation_instructions db' ≡ₚ meditation_instructions db →
  ∃ m m',
    get_session_by_id db (Some key) = Some m
    ∧ get_session_by_id db' (Some key) = Some m'
    ∧ m = with_instructions (instructions m) row
    ∧ instructions m ≡ₚ filter (λ i, session_id i = key) (meditation_instructions db)
    ∧ StronglySorted Z.le (step_orders (instructions m))
    ∧ step_orders (instructions m') = step_orders (instructions m).
Proof.
  intros Hget Hsess Hperm.
  assert (Hget' : db_get db' key = Some row).
  { unfold db_get in *. by rewrite Hsess. }
  unfold get_session_by_id. rewrite Hget, Hget'.
  eexists _, _. split; [done|]. split; [done|]. simpl.
  split; [done|]. unfold select_instructions.
  split; [apply order_by_step_order_perm|].
  split; [apply order_by_step_order_sorted|].
  apply (StronglySorted_unique Z.le); try apply order_by_step_order_sorted.
  unfold step_orders. apply fmap_Permutation.
  rewrite !order_by_step_order_perm. by apply filter_Permutation.
Qed.

Lemma get_session_by_id_sorted_witness :
  ∃ m m',
    get_session_by_id ordered_session_db (Some 1) = Some m
    ∧ get_session_by_id
        (mkDatabase (meditation_sessions ordered_session_db)
           (reverse (meditation_instructions ordered_session_db))) (Some 1) = Some m'
    ∧ m = with_instructions (instructions m)
            (mkSession (Some 1) "Ordered Session"
               "Test session for instruction ordering" BREATHING BEGINNER 5 true [])
    ∧ instructions m ≡ₚ
        filter (λ i, session_id i = 1) (meditation_instructions ordered_session_db)
    ∧ StronglySorted Z.le (step_orders (instructions m))
    ∧ step_orders (instructions m') = step_orders (instructions m).
Proof.
  apply (get_session_by_id_sorted ordered_session_db
           (mkDatabase (meditation_sessions ordered_session_db)
              (reverse (meditation_instructions ordered_session_db))) 1).
  - reflexivity.
  - reflexivity.
  - simpl. apply reverse_Permutation.
Defined.

(** C9. [get_session_by_id] is a total function; for [None] and for an
    id that no stored session carries it returns [None]. *)
Theorem get_session_by_id_not_found (db : Database) (session_id : option Z) :
  (∀ key, session_id = Some key →
     ∀ m, m ∈ meditation_sessions db → ms_id m ≠ Some key) →
  get_session_by_id db session_id = None.
Proof.
  intros Hmissing. destruct session_id as [key|]; simpl; [|done].
  by rewrite (db_get_missing db key (Hmissing key eq_refl)).
Qed.

Lemma get_session_by_id_not_found_witness :
  get_session_by_id ordered_session_db None = None
  ∧ get_session_by_id ordered_session_db (Some 999) = None.
Proof.
  split.
  - apply get_session_by_id_not_found. intros key Hk. discriminate Hk.
  - apply get_session_by_id_not_found. intros key Hk m Hm.
    injection Hk as <-. vm_compute in Hm.
    apply list_elem_of_singleton in Hm. subst m. simpl. discriminate.
Defined.

End ServiceFacts.

(** * Properties of the meditation player *)

Module PlayerFacts.

Ltac split_conj := repeat match goal with |- _ ∧ _ => split end.

(** ** The timer store *)

Lemma pending_lookup (l : list Timer) h t :
  l !! h = Some t → is_pending t = true → List.filter is_pending l ≠ [].
Proof.
  revert h. induction l as [|a l IH]; intros h Hl Hp; [done|].
  destruct h as [|h]; simpl in *.
  - injection Hl as ->. by rewrite Hp.
  - destruct (is_pending a); [done|]. by eapply IH.
Qed.

Lemma pending_alter (f : Timer → Timer) (l : list Timer) h :
  (∀ t, is_pending (f t) = false) →
  List.filter is_pending l = []
  ∨ (∃ t, l !! h = Some t ∧ is_pending t = true
          ∧ length (List.filter is_pending l) = 1%nat) →
  List.filter is_pending (alter f h l) = [].
Proof.
  intros Hf. revert h. induction l as [|a l IH]; intros h Hl; [done|].
  destruct h as [|h]; simpl in *.
  - rewrite Hf. destruct Hl as [Hl|(t & Ht & Hp & Hlen)].
    + destruct (is_pending a); [done|exact Hl].
    + injection Ht as ->. rewrite Hp in Hlen. simpl in Hlen.
      destruct (List.filter is_pending l); [done|simpl in Hlen; lia].
  - destruct (is_pending a) eqn:Ha.
    + destruct Hl as [Hl|(t & Ht & Hp & Hlen)]; [done|].
      simpl in Hlen. exfalso. eapply pending_lookup; [exact Ht|exact Hp|].
      destruct (List.filter is_pending l); [done|simpl in Hlen; lia].
    + apply IH. exact Hl.
Qed.

Lemma pending_singleton_lookup (l : list Timer) x :
  List.filter is_pending l = [x] →
  ∃ h, l !! h = Some x ∧ is_pending x = true.
Proof.
  intros Hf.
  assert (Hin : In x (List.filter is_pending l)) by (rewrite Hf; by left).
  apply filter_In in Hin as [Hin Hp].
  apply list_elem_of_In, list_elem_of_lookup in Hin as [h Hh]. eauto.
Qed.

(** ** Widgets do not matter to the machine *)

Lemma same_core_refl s : same_core s s.
Proof. by repeat split. Qed.

Lemma same_core_derived s s' :
  same_core s s' →
  session_instructions s' = session_instructions s
  ∧ no_instructions s' = no_instructions s
  ∧ pending_timers s' = pending_timers s
  ∧ completions s' = completions s
  ∧ armed_delay s' = armed_delay s.
Proof.
  intros (Hs & Hc & Hp & _ & _ & Ht & Hn).
  unfold session_instructions, no_instructions, pending_timers, completions,
    armed_delay, session_instructions.
  by rewrite Hs, Hc, Hp, Ht, Hn.
Qed.

Lemma py_index_in_range {A} (l : list A) (i : Z) :
  0 ≤ i < len l → py_index l i = l !! Z.to_nat i ∧ is_Some (l !! Z.to_nat i).
Proof.
  unfold py_index, len. intros Hi.
  destruct (Z.leb_spec 0 i); [|lia]. split; [done|].
  apply lookup_lt_is_Some. lia.
Qed.

(** [_update_display] touches widgets only, and it raises nothing as long
    as the step is not negative. *)
Lemma update_display_spec s :
  (no_instructions s = false → 0 ≤ current_step s) →
  ∃ s', _update_display s = Some s'
    ∧ same_core s s'
    ∧ play_button s' = play_button s
    ∧ time_label s' =
        if no_instructions s then time_label s
        else if truthy (time_label s)
        then Some (format_time
                     (elapsed_seconds (session_instructions s) (current_step s)))
        else None.
Proof.
  intros Hcs. unfold _update_display.
  destruct (no_instructions s) eqn:Hno.
  { exists s. split; [done|]. split; [apply same_core_refl|done]. }
  specialize (Hcs eq_refl).
  assert (Hidx : (current_step s <? len (session_instructions s)) = true →
                 is_Some (py_index (session_instructions s) (current_step s))).
  { intros Hlt. apply Z.ltb_lt in Hlt.
    destruct (py_index_in_range (session_instructions s) (current_step s))
      as [-> ?]; [lia|done]. }
  unfold session_instructions in *.
  destruct (progress_bar s) as [pb|] eqn:Hpb;
    destruct (step_info_label s) as [si|] eqn:Hsi;
    destruct (instruction_label s) as [il|] eqn:Hil;
    destruct (time_label s) as [tl|] eqn:Htl;
    repeat (simpl; rewrite ?Hpb, ?Hsi, ?Hil, ?Htl);
    try (destruct (current_step s <? _) eqn:Hlt;
         [destruct (Hidx eq_refl) as [inst ->]|]);
    repeat (simpl; rewrite ?Hpb, ?Hsi, ?Hil, ?Htl);
    (eexists; split; [reflexivity|]; by repeat split).
Qed.

(** ** Cancelling and arming *)

Lemma cancel_timer_clears s :
  (length (pending_timers s) ≤ 1)%nat →
  (∀ h t, timers s !! h = Some t → is_pending t = true → timer s = Some h) →
  pending_timers (cancel_timer s) = [].
Proof.
  unfold pending_timers, cancel_timer. intros Hlen Hh.
  destruct (timer s) as [h|] eqn:Ht; simpl.
  - apply pending_alter; [done|].
    destruct (List.filter is_pending (timers s)) as [|x [|y r]] eqn:Hf;
      [by left| |simpl in Hlen; lia].
    right. destruct (pending_singleton_lookup _ _ Hf) as (h' & Hl & Hp).
    assert (h' = h) as -> by (specialize (Hh _ _ Hl Hp); congruence).
    eauto.
  - destruct (List.filter is_pending (timers s)) as [|x r] eqn:Hf; [done|].
    assert (Hin : In x (List.filter is_pending (timers s))) by (rewrite Hf; by left).
    apply filter_In in Hin as [Hin Hp].
    apply list_elem_of_In, list_elem_of_lookup in Hin as [h' Hl].
    specialize (Hh _ _ Hl Hp). congruence.
Qed.

Lemma Inv_pending_le s : Inv s → (length (pending_timers s) ≤ 1)%nat.
Proof.
  intros HI. rewrite (inv_pending s HI). destruct (armed_delay s); simpl; lia.
Qed.

Lemma Inv_cancel_clears s : Inv s → pending_timers (cancel_timer s) = [].
Proof.
  intros HI. apply cancel_timer_clears; [by apply Inv_pending_le|].
  apply (inv_handle s HI).
Qed.

Lemma no_pending_lookup s h t :
  pending_timers s = [] → timers s !! h = Some t → is_pending t = false.
Proof.
  unfold pending_timers. intros Hnil Hl.
  destruct (is_pending t) eqn:Hp; [|done].
  by destruct (pending_lookup _ _ _ Hl Hp).
Qed.


Lemma no_instructions_len s :
  truthy (session s) = true →
  (no_instructions s = false ↔ 0 < len (session_instructions s)).
Proof.
  unfold no_instructions, session_instructions, len.
  destruct (session s) as [m|]; [|done]. intros _.
  destruct (instructions m); simpl; split; intros; try done; lia.
Qed.

Lemma pending_timers_ui_timer d s :
  pending_timers s = [] → pending_timers (ui_timer d s) = [mkTimer d Pending].
Proof.
  unfold pending_timers, ui_timer. simpl. intros Hnil.
  by rewrite List.filter_app, Hnil.
Qed.

Lemma has_duration_Some d : has_duration d = true → ∃ n, d = Some n ∧ 0 < n.
Proof.
  destruct d as [n|]; simpl; [|done]. intros H.
  apply andb_true_iff in H as [_ H%Z.ltb_lt]. eauto.
Qed.

(** ** Building the invariant *)

Lemma arms_cleanly_from s s2 s' :
  length (timers s2) = length (timers s) → arms_cleanly s2 s' → arms_cleanly s s'.
Proof.
  intros Hlen [Heq|(d & s1 & -> & Hnil & Hl)]; [left|right].
  - by rewrite Heq.
  - exists d, s1. split_conj; try done. by rewrite Hl.
Qed.

(** A state that waits on no timer. *)
Lemma Inv_at_rest s :
  truthy (session s) = true →
  0 ≤ current_step s ≤ len (session_instructions s) →
  (is_playing s = true → no_instructions s = false) →
  armed_delay s = None →
  pending_timers s = [] →
  time_label s =
    Some (format_time
            (elapsed_seconds (session_instructions s)
               (if current_step s <? len (session_instructions s)
                then current_step s
                else len (session_instructions s) - 1))) →
  (0 < len (session_instructions s) →
   current_step s = len (session_instructions s) → (1 ≤ completions s)%nat) →
  Inv s.
Proof.
  intros Hs Hr Hp Ha Hn Hd Hc. constructor; try done.
  - by rewrite Ha.
  - intros h t Hl Hpend. by rewrite (no_pending_lookup s h t Hn Hl) in Hpend.
Qed.

(** Entering a step while playing: [_start_current_step], called on a
    state without pending timer, re-establishes the invariant. *)
Lemma Inv_enter_step s :
  truthy (session s) = true →
  0 ≤ current_step s < len (session_instructions s) →
  is_playing s = true →
  pending_timers s = [] →
  truthy (time_label s) = true →
  ∃ s', _start_current_step s = Some s'
    ∧ Inv s'
    ∧ session s' = session s
    ∧ current_step s' = current_step s
    ∧ is_playing s' = true
    ∧ is_paused s' = is_paused s
    ∧ notifications s' = notifications s
    ∧ play_button s' = play_button s
    ∧ arms_cleanly s s'.
Proof.
  intros Hs Hr Hplay Hnil Htl.
  assert (Hno : no_instructions s = false) by (apply no_instructions_len; [done|lia]).
  unfold _start_current_step. rewrite Hno.
  destruct (Z.leb_spec (len (session_instructions s)) (current_step s)); [lia|].
  destruct (py_index_in_range (session_instructions s) (current_step s))
    as [-> [inst Hinst]]; [lia|]. rewrite Hinst. simpl.
  destruct (update_display_spec s) as (s1 & -> & Hcore & Hbtn & Htime); [lia|].
  rewrite Hno, Htl in Htime. simpl.
  destruct (same_core_derived _ _ Hcore) as (Hi1 & Hn1 & Hp1 & Hc1 & Ha1).
  destruct Hcore as (Hses & Hcs & Hpl & Hpa & Htm & Htms & Hnot).
  assert (Hdisp : time_label s1 =
    Some (format_time (elapsed_seconds (session_instructions s1)
            (if current_step s1 <? len (session_instructions s1)
             then current_step s1 else len (session_instructions s1) - 1)))).
  { rewrite Htime, Hi1, Hcs.
    by destruct (Z.ltb_spec (current_step s) (len (session_instructions s))); [|lia]. }
  assert (Harm : armed_delay s1 =
    if has_duration (duration_seconds inst) then duration_seconds inst else None).
  { rewrite Ha1. unfold armed_delay. rewrite Hplay, Hinst.
    by destruct (Z.ltb_spec (current_step s) (len (session_instructions s))); [|lia]. }
  destruct (has_duration (duration_seconds inst)) eqn:Hdur.
  - destruct (has_duration_Some _ Hdur) as (d & Hd & Hpos). rewrite Hd in *. simpl.
    eexists. split; [done|].
    split; [|simpl; split_conj; try congruence; right; exists d, s1;
             split_conj; [done|by rewrite Hp1|by rewrite Htms]].
    constructor.
    + simpl. by rewrite Hses.
    + change (0 ≤ current_step s1 ≤ len (session_instructions s1)).
      rewrite Hcs, Hi1. lia.
    + intros _. change (no_instructions s1 = false). by rewrite Hn1.
    + rewrite pending_timers_ui_timer by (by rewrite Hp1).
      change (armed_delay (ui_timer d s1)) with (armed_delay s1). by rewrite Harm.
    + simpl. intros h t Hl Hpend.
      destruct (decide (h < length (timers s1))%nat) as [Hlt|Hge].
      * rewrite lookup_app_l in Hl by done.
        assert (Hp1' : pending_timers s1 = []) by (by rewrite Hp1).
        by rewrite (no_pending_lookup s1 h t Hp1' Hl) in Hpend.
      * rewrite lookup_app_r in Hl by lia.
        destruct (h - length (timers s1))%nat as [|k] eqn:Hk; [|done].
        f_equal. lia.
    + exact Hdisp.
    + change (0 < len (session_instructions s1) →
              current_step s1 = len (session_instructions s1) →
              (1 ≤ completions s1)%nat).
      rewrite Hcs, Hi1. lia.
  - simpl. eexists. split; [done|].
    split; [|split_conj; try congruence; left; by rewrite Htms].
    apply Inv_at_rest; try done.
    + by rewrite Hses.
    + rewrite Hcs, Hi1. lia.
    + intros _. by rewrite Hn1.
    + by rewrite Hp1.
    + rewrite Hcs, Hi1. lia.
Qed.


Lemma cancel_timer_frame s :
  session (cancel_timer s) = session s
  ∧ current_step (cancel_timer s) = current_step s
  ∧ is_playing (cancel_timer s) = is_playing s
  ∧ is_paused (cancel_timer s) = is_paused s
  ∧ notifications (cancel_timer s) = notifications s
  ∧ time_label (cancel_timer s) = time_label s
  ∧ play_button (cancel_timer s) = play_button s
  ∧ length (timers (cancel_timer s)) = length (timers s).
Proof.
  unfold cancel_timer. destruct (timer s); simpl; repeat split; try done.
  by rewrite length_alter.
Qed.

Lemma cancel_timer_keeps_clear s :
  pending_timers s = [] → pending_timers (cancel_timer s) = [].
Proof.
  unfold pending_timers, cancel_timer. intros Hnil.
  destruct (timer s); simpl; [|done]. apply pending_alter; [done|by left].
Qed.

Lemma elapsed_seconds_nil k : elapsed_seconds [] k = 0.
Proof.
  unfold elapsed_seconds, py_slice_to.
  destruct (0 <=? k); by rewrite take_nil.
Qed.

Lemma completions_notify s :
  completions (ui_notify SessionComplete s) = S (completions s).
Proof.
  unfold completions, ui_notify. simpl.
  rewrite List.filter_app, length_app. simpl. lia.
Qed.

Ltac frame_button :=
  repeat match goal with
  | |- context [truthy (play_button ?x)] =>
      let b := fresh "btn" in destruct (play_button x) as [b|]; simpl
  | |- context [truthy (instruction_label ?x)] =>
      let b := fresh "lbl" in destruct (instruction_label x) as [b|]; simpl
  end.

(** [_meditation_complete] on a state whose step has just left the list. *)
Lemma meditation_complete_spec s :
  truthy (session s) = true →
  0 < len (session_instructions s) →
  current_step s = len (session_instructions s) →
  pending_timers s = [] →
  time_label s =
    Some (format_time
            (elapsed_seconds (session_instructions s)
               (len (session_instructions s) - 1))) →
  Inv (_meditation_complete s)
  ∧ session (_meditation_complete s) = session s
  ∧ current_step (_meditation_complete s) = current_step s
  ∧ is_playing (_meditation_complete s) = false
  ∧ completions (_meditation_complete s) = S (completions s)
  ∧ length (timers (_meditation_complete s)) = length (timers s).
Proof.
  intros Hs Hn Hcs Hnil Htl. unfold _meditation_complete.
  set (s3 := ui_notify SessionComplete _).
  assert (Hf : session s3 = session s ∧ current_step s3 = current_step s
               ∧ is_playing s3 = false ∧ timers s3 = timers s
               ∧ time_label s3 = time_label s
               ∧ completions s3 = S (completions s)).
  { subst s3. rewrite completions_notify. simpl. frame_button; by repeat split. }
  clearbody s3. destruct Hf as (Hses & Hc & Hpl & Htms & Htime & Hcomp).
  destruct (cancel_timer_frame s3)
    as (Fs & Fc & Fp & _ & Fn & Ft & _ & Flen).
  assert (Hi : session_instructions (cancel_timer s3) = session_instructions s).
  { unfold session_instructions. by rewrite Fs, Hses. }
  assert (Hco : completions (cancel_timer s3) = S (completions s)).
  { unfold completions in *. by rewrite Fn. }
  split; [|repeat split; try congruence; by rewrite Flen, Htms].
  apply Inv_at_rest.
  - by rewrite Fs, Hses.
  - rewrite Fc, Hc, Hi. lia.
  - rewrite Fp, Hpl. done.
  - unfold armed_delay. by rewrite Fp, Hpl.
  - apply cancel_timer_keeps_clear. unfold pending_timers in *. by rewrite Htms.
  - rewrite Ft, Htime, Htl, Hi, Fc, Hc, Hcs.
    by destruct (Z.ltb_spec (len (session_instructions s))
                   (len (session_instructions s))); [lia|].
  - intros _ _. rewrite Hco. lia.
Qed.


(** ** The methods, one by one *)

Lemma Inv_no_pending_rest s :
  Inv s → is_playing s = false → pending_timers s = [].
Proof.
  intros HI Hp. rewrite (inv_pending s HI). unfold armed_delay. by rewrite Hp.
Qed.

Lemma pause_spec s :
  Inv s →
  ∃ s', _pause_meditation s = Some s'
    ∧ Inv s'
    ∧ session s' = session s
    ∧ current_step s' = current_step s
    ∧ is_playing s' = false
    ∧ is_paused s' = true
    ∧ notifications s' = notifications s
    ∧ length (timers s') = length (timers s)
    ∧ pending_timers s' = [].
Proof.
  intros HI. unfold _pause_meditation.
  set (s2 := if truthy _ then _ else _).
  assert (Hf : session s2 = session s ∧ current_step s2 = current_step s
               ∧ is_playing s2 = false ∧ is_paused s2 = true
               ∧ timer s2 = timer s ∧ timers s2 = timers s
               ∧ notifications s2 = notifications s
               ∧ time_label s2 = time_label s).
  { subst s2. simpl. frame_button; by split_conj. }
  clearbody s2. destruct Hf as (Hses & Hc & Hpl & Hpa & Htm & Htms & Hnot & Htime).
  destruct (cancel_timer_frame s2) as (Fs & Fc & Fp & Fpa & Fn & Ft & _ & Flen).
  assert (Hi : session_instructions (cancel_timer s2) = session_instructions s).
  { unfold session_instructions. by rewrite Fs, Hses. }
  assert (Hclear : pending_timers (cancel_timer s2) = []).
  { apply cancel_timer_clears.
    - unfold pending_timers. rewrite Htms. by apply Inv_pending_le.
    - rewrite Htms, Htm. apply (inv_handle s HI). }
  eexists. split; [done|].
  split; [|split_conj; try congruence; by rewrite ?Flen, ?Htms].
  apply Inv_at_rest; try done.
  - rewrite Fs, Hses. apply (inv_session s HI).
  - rewrite Fc, Hc, Hi. apply (inv_range s HI).
  - by rewrite Fp, Hpl.
  - unfold armed_delay. by rewrite Fp, Hpl.
  - rewrite Ft, Htime, Hi, Fc, Hc. apply (inv_display s HI).
  - rewrite Hi, Fc, Hc. unfold completions. rewrite Fn, Hnot.
    apply (inv_completed s HI).
Qed.

Lemma start_meditation_spec s :
  Inv s → is_playing s = false →
  ∃ s', _start_meditation s = Some s'
    ∧ Inv s'
    ∧ session s' = session s
    ∧ current_step s' = current_step s
    ∧ is_playing s' = negb (no_instructions s)
    ∧ notifications s' = notifications s
    ∧ arms_cleanly s s'
    ∧ (no_instructions s = true → s' = s).
Proof.
  intros HI Hplay. unfold _start_meditation.
  destruct (no_instructions s) eqn:Hno.
  { exists s. simpl. split_conj; try done. by left. }
  set (s2 := if truthy _ then _ else _).
  assert (Hf : session s2 = session s ∧ current_step s2 = current_step s
               ∧ is_playing s2 = true
               ∧ timer s2 = timer s ∧ timers s2 = timers s
               ∧ notifications s2 = notifications s
               ∧ time_label s2 = time_label s).
  { subst s2. simpl. frame_button; by split_conj. }
  clearbody s2. destruct Hf as (Hses & Hc & Hpl & Htm & Htms & Hnot & Htime).
  assert (Hi : session_instructions s2 = session_instructions s).
  { unfold session_instructions. by rewrite Hses. }
  assert (Hnil : pending_timers s2 = []).
  { unfold pending_timers. rewrite Htms. by apply Inv_no_pending_rest. }
  assert (Hsess : truthy (session s2) = true).
  { rewrite Hses. apply (inv_session s HI). }
  assert (Hrange := inv_range s HI).
  destruct (Z.ltb_spec (current_step s2) (len (session_instructions s2)))
    as [Hlt|Hge].
  - destruct (Inv_enter_step s2)
      as (s' & -> & HI' & Es & Ec & Ep & _ & En & _ & El); try done.
    + lia.
    + rewrite Htime, (inv_display s HI). done.
    + exists s'. split; [done|]. simpl. split_conj; try congruence.
      eapply arms_cleanly_from; [|exact El]. by rewrite Htms.
  - exists s2. split; [done|]. simpl.
    split; [|split_conj; try congruence; left; by rewrite Htms].
    apply Inv_at_rest; try done.
    + rewrite Hc, Hi. done.
    + intros _. unfold no_instructions in *. by rewrite Hses.
    + unfold armed_delay.
      destruct (Z.ltb_spec (current_step s2) (len (session_instructions s2)));
        [lia|]. by rewrite andb_false_r.
    + rewrite Htime, Hi, Hc. apply (inv_display s HI).
    + rewrite Hi, Hc. unfold completions. rewrite Hnot.
      apply (inv_completed s HI).
Qed.

Lemma toggle_play_spec s :
  Inv s →
  ∃ s', _toggle_play s = Some s'
    ∧ Inv s'
    ∧ session s' = session s
    ∧ current_step s' = current_step s
    ∧ is_playing s' = (if no_instructions s then is_playing s else negb (is_playing s))
    ∧ notifications s' = notifications s
    ∧ arms_cleanly s s'
    ∧ (no_instructions s = true → s' = s)
    ∧ (is_playing s = true → is_paused s' = true ∧ pending_timers s' = []).
Proof.
  intros HI. unfold _toggle_play.
  destruct (no_instructions s) eqn:Hno.
  { exists s. split_conj; try done; [by left|].
    intros Hp; by rewrite (inv_playing s HI Hp) in Hno. }
  destruct (is_playing s) eqn:Hplay; simpl.
  - destruct (pause_spec s HI)
      as (s' & -> & HI' & Es & Ec & Ep & Epa & En & El & Enil).
    exists s'. split_conj; try done. by left.
  - destruct (start_meditation_spec s HI Hplay)
      as (s' & -> & HI' & Es & Ec & Ep & En & El & _).
    exists s'. rewrite Hno in Ep. by split_conj.
Qed.


Lemma restart_spec s :
  Inv s →
  ∃ s', _restart s = Some s'
    ∧ Inv s'
    ∧ session s' = session s
    ∧ current_step s' = 0
    ∧ is_playing s' = false
    ∧ notifications s' = notifications s
    ∧ length (timers s') = length (timers s).
Proof.
  intros HI. unfold _restart.
  set (s3 := if truthy _ then _ else _).
  destruct (cancel_timer_frame s) as (Fs & Fc & Fp & _ & Fn & Ft & _ & Flen).
  assert (Hf : session s3 = session s ∧ current_step s3 = 0
               ∧ is_playing s3 = false
               ∧ timers s3 = timers (cancel_timer s)
               ∧ notifications s3 = notifications s
               ∧ time_label s3 = time_label s).
  { subst s3. simpl. frame_button; by split_conj. }
  clearbody s3. destruct Hf as (Hses & Hc & Hpl & Htms & Hnot & Htime).
  destruct (update_display_spec s3) as (s' & -> & Hcore & _ & Htl); [lia|].
  destruct (same_core_derived _ _ Hcore) as (Hi1 & Hn1 & Hp1 & Hc1 & Ha1).
  destruct Hcore as (Cs & Cc & Cp & _ & _ & Ctms & Cn).
  assert (Hi : session_instructions s3 = session_instructions s).
  { unfold session_instructions. by rewrite Hses. }
  assert (Hno : no_instructions s3 = no_instructions s).
  { unfold no_instructions. by rewrite Hses. }
  assert (Hsess := inv_session s HI). assert (Hrange := inv_range s HI).
  exists s'. split; [done|].
  split; [|split_conj; try congruence; by rewrite Ctms, Htms].
  apply Inv_at_rest.
  - by rewrite Cs, Hses.
  - rewrite Cc, Hc, Hi1, Hi. lia.
  - by rewrite Cp, Hpl.
  - unfold armed_delay. by rewrite Cp, Hpl.
  - rewrite Hp1. unfold pending_timers. rewrite Htms.
    by apply Inv_cancel_clears.
  - rewrite Htl, Hi1, Cc, Hc, Hi, Hno, Htime, (inv_display s HI).
    destruct (no_instructions s) eqn:Hn; simpl.
    + assert (Hnil : session_instructions s = []).
      { unfold no_instructions, session_instructions in *.
        destruct (session s) as [m|]; [|done]. by destruct (instructions m). }
      by rewrite Hnil, !elapsed_seconds_nil.
    + apply no_instructions_len in Hn; [|done].
      by destruct (Z.ltb_spec 0 (len (session_instructions s))); [|lia].
  - rewrite Hi1, Hi, Cc, Hc. lia.
Qed.

(** The shared tail of [_previous_step] and [_next_step]: the timer is
    cancelled, the step moves to [k], the display is refreshed, and the
    new step is started if the player is playing. *)
Lemma move_to_spec s k :
  Inv s →
  0 ≤ k < len (session_instructions s) →
  ∃ s', (s3 ← _update_display (set_current_step k (cancel_timer s));
         if is_playing s3 then _start_current_step s3 else Some s3) = Some s'
    ∧ Inv s'
    ∧ session s' = session s
    ∧ current_step s' = k
    ∧ is_playing s' = is_playing s
    ∧ notifications s' = notifications s
    ∧ arms_cleanly s s'.
Proof.
  intros HI Hk.
  destruct (cancel_timer_frame s) as (Fs & Fc & Fp & _ & Fn & Ft & _ & Flen).
  assert (Hsess := inv_session s HI).
  destruct (update_display_spec (set_current_step k (cancel_timer s)))
    as (s3 & -> & Hcore & _ & Htl); [simpl; lia|]. simpl.
  destruct (same_core_derived _ _ Hcore) as (Hi1 & Hn1 & Hp1 & Hc1 & Ha1).
  destruct Hcore as (Cs & Cc & Cp & _ & _ & Ctms & Cn).
  simpl in Cs, Cc, Cp, Ctms, Cn.
  assert (Hi0 : session_instructions (set_current_step k (cancel_timer s))
                = session_instructions s).
  { unfold session_instructions. simpl. by rewrite Fs. }
  assert (Hi : session_instructions s3 = session_instructions s).
  { by rewrite Hi1. }
  assert (Hno : no_instructions (set_current_step k (cancel_timer s)) = false).
  { apply no_instructions_len; [simpl; by rewrite Fs|]. rewrite Hi0. lia. }
  rewrite Hno, Hi0 in Htl. simpl in Htl.
  rewrite Ft, (inv_display s HI) in Htl. simpl in Htl.
  assert (Hnil : pending_timers s3 = []).
  { unfold pending_timers. rewrite Ctms. by apply Inv_cancel_clears. }
  destruct (is_playing s3) eqn:Hpl.
  - destruct (Inv_enter_step s3)
      as (s' & -> & HI' & Es & Ec & Ep & _ & En & _ & El); try done.
    + by rewrite Cs, Fs.
    + rewrite Cc, Hi. done.
    + by rewrite Htl.
    + exists s'. split; [done|]. split_conj; try congruence.
      eapply arms_cleanly_from; [|exact El]. by rewrite Ctms, Flen.
  - exists s3. split; [done|].
    split; [|split_conj; try congruence; left; by rewrite Ctms, Flen].
    apply Inv_at_rest.
    + by rewrite Cs, Fs.
    + rewrite Cc, Hi. lia.
    + by rewrite Hpl.
    + unfold armed_delay. by rewrite Hpl.
    + done.
    + rewrite Htl, Hi, Cc.
      by destruct (Z.ltb_spec k (len (session_instructions s))); [|lia].
    + rewrite Hi, Cc. lia.
Qed.

Lemma previous_step_spec s :
  Inv s →
  ∃ s', _previous_step s = Some s'
    ∧ Inv s'
    ∧ session s' = session s
    ∧ current_step s' = (if 0 <? current_step s then current_step s - 1
                         else current_step s)
    ∧ is_playing s' = is_playing s
    ∧ notifications s' = notifications s
    ∧ arms_cleanly s s'.
Proof.
  intros HI. unfold _previous_step.
  destruct (cancel_timer_frame s) as (_ & Fc & _).
  destruct (Z.ltb_spec 0 (current_step s)) as [Hpos|Hzero].
  - rewrite Fc. apply move_to_spec; [done|].
    assert (Hrange := inv_range s HI). lia.
  - exists s. split_conj; try done. by left.
Qed.

Lemma next_step_spec s :
  Inv s →
  ∃ s', _next_step s = Some s'
    ∧ Inv s'
    ∧ session s' = session s
    ∧ current_step s' =
        (if current_step s <? len (session_instructions s) - 1
         then current_step s + 1 else current_step s)
    ∧ is_playing s' = is_playing s
    ∧ notifications s' = notifications s
    ∧ arms_cleanly s s'.
Proof.
  intros HI. unfold _next_step.
  destruct (cancel_timer_frame s) as (_ & Fc & _).
  assert (Hrange := inv_range s HI).
  destruct (no_instructions s) eqn:Hno.
  - exists s. split_conj; try done; [|by left].
    destruct (Z.ltb_spec (current_step s) (len (session_instructions s) - 1));
      [|done].
    assert (Hpos : 0 < len (session_instructions s)) by lia.
    apply no_instructions_len in Hpos; [congruence|apply (inv_session s HI)].
  - destruct (Z.ltb_spec (current_step s) (len (session_instructions s) - 1))
      as [Hlt|Hge].
    + rewrite Fc. apply move_to_spec; [done|lia].
    + exists s. split_conj; try done. by left.
Qed.


Lemma armed_delay_Some s d :
  armed_delay s = Some d →
  is_playing s = true
  ∧ current_step s < len (session_instructions s)
  ∧ ∃ inst, session_instructions s !! Z.to_nat (current_step s) = Some inst
            ∧ duration_seconds inst = Some d ∧ 0 < d.
Proof.
  unfold armed_delay. destruct (is_playing s); [|done]. simpl.
  destruct (Z.ltb_spec (current_step s) (len (session_instructions s))); [|done].
  destruct (_ !! _) as [inst|]; [|done]. simpl.
  destruct (has_duration (duration_seconds inst)) eqn:Hd; [|done].
  intros Heq. destruct (has_duration_Some _ Hd) as (n & Hn & Hpos).
  split_conj; try done. exists inst. split; [done|].
  rewrite Hn in Heq. injection Heq as <-. done.
Qed.

Lemma elapse_idle s h : timer_pending s h = false → elapse h s = Some s.
Proof.
  unfold timer_pending, elapse. destruct (timers s !! h) as [t|]; [|done].
  by intros ->.
Qed.

(** A pending timer runs out: [_advance_to_next_step] is called. *)
Lemma elapse_spec s h :
  Inv s → timer_pending s h = true →
  ∃ s', elapse h s = Some s'
    ∧ Inv s'
    ∧ session s' = session s
    ∧ is_playing s = true
    ∧ current_step s < len (session_instructions s)
    ∧ current_step s' = current_step s + 1
    ∧ is_playing s' = (current_step s + 1 <? len (session_instructions s))
    ∧ completions s' =
        (if current_step s + 1 <? len (session_instructions s)
         then completions s else S (completions s))
    ∧ arms_cleanly s s'.
Proof.
  intros HI Hpend. unfold timer_pending in Hpend. unfold elapse.
  destruct (timers s !! h) as [t|] eqn:Ht; [|done]. rewrite Hpend.
  assert (Hne : pending_timers s ≠ []) by (by eapply pending_lookup).
  assert (Hpt := inv_pending s HI).
  destruct (armed_delay s) as [d|] eqn:Harm; [|done].
  destruct (armed_delay_Some s d Harm) as (Hplay & Hlt & _).
  assert (Hsess := inv_session s HI). assert (Hrange := inv_range s HI).
  assert (Hdisp := inv_display s HI).
  destruct (Z.ltb_spec (current_step s) (len (session_instructions s)));
    [|lia].
  set (s0 := set_timers _ s).
  assert (Hnil0 : pending_timers s0 = []).
  { subst s0. unfold pending_timers. simpl. apply pending_alter; [done|].
    right. exists t. split_conj; try done.
    unfold pending_timers in Hpt. by rewrite Hpt. }
  unfold _advance_to_next_step.
  replace (is_playing s0) with true by done. simpl negb. cbv iota.
  set (s1 := set_current_step _ s0).
  assert (Hi : session_instructions s1 = session_instructions s) by done.
  change (session s1) with (session s). rewrite Hsess.
  change (current_step s1) with (current_step s + 1).
  rewrite Hi. simpl negb. simpl orb.
  destruct (Z.leb_spec (len (session_instructions s)) (current_step s + 1))
    as [Hend|Hmore].
  - destruct (meditation_complete_spec s1)
      as (HI' & Es & Ec & Ep & Eco & El); try done.
    + rewrite Hi. lia.
    + rewrite Hi. change (current_step s1) with (current_step s + 1). lia.
    + change (time_label s1) with (time_label s). rewrite Hdisp, Hi.
      by replace (len (session_instructions s) - 1) with (current_step s) by lia.
    + eexists. split; [done|].
      destruct (Z.ltb_spec (current_step s + 1) (len (session_instructions s)));
        [lia|].
      split_conj; try done. left.
      rewrite El. subst s1 s0. simpl. by rewrite length_alter.
  - destruct (Inv_enter_step s1)
      as (s' & -> & HI' & Es & Ec & Ep & _ & En & _ & El); try done.
    + rewrite Hi. change (current_step s1) with (current_step s + 1). lia.
    + change (time_label s1) with (time_label s). by rewrite Hdisp.
    + exists s'. split; [done|].
      destruct (Z.ltb_spec (current_step s + 1) (len (session_instructions s)));
        [|lia].
      split_conj; try done.
      * unfold completions. by rewrite En.
      * eapply arms_cleanly_from; [|exact El].
        subst s1 s0. simpl. by rewrite length_alter.
Qed.


(** ** Every state of a page satisfies the invariant *)

Lemma loaded_spec m :
  ∃ s0, loaded m = Some s0
    ∧ Inv s0
    ∧ session s0 = Some m
    ∧ current_step s0 = 0
    ∧ is_playing s0 = false
    ∧ timers s0 = []
    ∧ notifications s0 = []
    ∧ play_button s0 = Some TextStart.
Proof.
  unfold loaded, create. simpl truthy. cbv iota.
  match goal with |- context [_update_display ?x] => set (s := x) end.
  destruct (update_display_spec s) as (s0 & -> & Hcore & Hbtn & Htl);
    [done|].
  destruct (same_core_derived _ _ Hcore) as (Hi1 & Hn1 & Hp1 & Hc1 & Ha1).
  destruct Hcore as (Cs & Cc & Cp & _ & _ & Ctms & Cn).
  exists s0. split; [done|]. split; [|by split_conj].
  apply Inv_at_rest.
  - by rewrite Cs.
  - rewrite Cc, Hi1. simpl. unfold len. lia.
  - by rewrite Cp.
  - by rewrite Ha1.
  - by rewrite Hp1.
  - rewrite Htl, Hi1, Cc. simpl current_step.
    destruct (no_instructions s) eqn:Hno.
    + assert (Hnil : session_instructions s = []).
      { unfold no_instructions, session_instructions in *. simpl in *.
        by destruct (instructions m). }
      by rewrite Hnil, elapsed_seconds_nil.
    + apply no_instructions_len in Hno; [|done]. simpl truthy. cbv iota.
      by destruct (Z.ltb_spec 0 (len (session_instructions s))); [|lia].
  - rewrite Hi1, Cc. simpl. lia.
Qed.

Lemma handle_spec e s :
  Inv s →
  ∃ s', handle e s = Some s' ∧ Inv s' ∧ session s' = session s
        ∧ arms_cleanly s s'.
Proof.
  intros HI. destruct e as [| | | |h]; simpl.
  - destruct (toggle_play_spec s HI) as (s' & ? & ? & ? & ? & ? & ? & ? & _).
    by exists s'.
  - destruct (previous_step_spec s HI) as (s' & ? & ? & ? & ? & ? & ? & ?).
    by exists s'.
  - destruct (next_step_spec s HI) as (s' & ? & ? & ? & ? & ? & ? & ?).
    by exists s'.
  - destruct (restart_spec s HI) as (s' & ? & ? & ? & ? & ? & ? & Hl).
    exists s'. split_conj; try done. by left.
  - destruct (timer_pending s h) eqn:Hp.
    + destruct (elapse_spec s h HI Hp) as (s' & ? & ? & ? & ? & ? & ? & ? & ? & ?).
      by exists s'.
    + exists s. rewrite (elapse_idle s h Hp). split_conj; try done. by left.
Qed.

Lemma run_spec events s :
  Inv s → ∃ s', run events s = Some s' ∧ Inv s' ∧ session s' = session s.
Proof.
  revert s. induction events as [|e events IH]; intros s HI; simpl.
  - by exists s.
  - destruct (handle_spec e s HI) as (s1 & -> & HI1 & Hs1 & _). simpl.
    destruct (IH s1 HI1) as (s' & Hrun & HI' & Hs').
    exists s'. split_conj; congruence.
Qed.

(** No sequence of events makes a page raise. *)
Lemma run_total m events :
  ∃ s0 s, loaded m = Some s0 ∧ run events s0 = Some s.
Proof.
  destruct (loaded_spec m) as (s0 & Hl & HI & _).
  destruct (run_spec events s0 HI) as (s & Hrun & _). eauto.
Qed.

Lemma reachable_Inv m s : reachable m s → Inv s ∧ session s = Some m.
Proof.
  intros (s0 & events & Hl & Hrun).
  destruct (loaded_spec m) as (s0' & Hl' & HI & Hs & _).
  assert (s0' = s0) as -> by congruence.
  destruct (run_spec events s0 HI) as (s' & Hrun' & HI' & Hs').
  assert (s' = s) as -> by congruence. split; congruence.
Qed.

Lemma reachable_loaded m s0 : loaded m = Some s0 → reachable m s0.
Proof. intros Hl. by exists s0, []. Qed.

Lemma reachable_handle m s e s' :
  reachable m s → handle e s = Some s' → reachable m s'.
Proof.
  intros (s0 & events & Hl & Hrun) He.
  exists s0, (events ++ [e]). split; [done|].
  clear Hl. revert s0 Hrun. induction events as [|e0 events IH]; simpl; intros s0 Hrun.
  - injection Hrun as ->. by rewrite He.
  - destruct (handle e0 s0) as [s1|]; simpl in *; [|done]. by apply IH.
Qed.

Lemma reachable_instructions m s :
  reachable m s → session_instructions s = instructions m.
Proof.
  intros Hr. destruct (reachable_Inv m s Hr) as [_ Hs].
  unfold session_instructions. by rewrite Hs.
Qed.


Lemma page_after_reachable m events s :
  page_after m events = Some s → reachable m s.
Proof.
  unfold page_after, reachable. destruct (loaded m) as [s0|]; [|done].
  simpl. intros Hrun. by exists s0, events.
Qed.

Lemma Inv_completed_clear s :
  Inv s → current_step s = len (session_instructions s) → pending_timers s = [].
Proof.
  intros HI Hc. rewrite (inv_pending s HI). unfold armed_delay.
  destruct (Z.ltb_spec (current_step s) (len (session_instructions s))); [lia|].
  by rewrite andb_false_r.
Qed.

Lemma no_pending_elapse s (hs : list nat) :
  pending_timers s = [] → run (Elapse <$> hs) s = Some s.
Proof.
  intros Hnil. induction hs as [|h hs IH]; simpl; [done|].
  rewrite elapse_idle; [done|]. unfold timer_pending.
  destruct (timers s !! h) as [t|] eqn:Ht; [|done].
  by eapply no_pending_lookup.
Qed.

(** Where an event leads and whether it completes the session. *)
Lemma handle_facts e s :
  Inv s →
  ∃ s', handle e s = Some s'
    ∧ Inv s'
    ∧ session s' = session s
    ∧ current_step s' = next_index e s
    ∧ completions s' = (if completes e s then S (completions s) else completions s)
    ∧ arms_cleanly s s'.
Proof.
  intros HI. destruct e as [| | | |h]; simpl.
  - destruct (toggle_play_spec s HI) as (s' & ? & ? & ? & ? & ? & Hn & ? & _).
    exists s'. split_conj; try done. unfold completions. by rewrite Hn.
  - destruct (previous_step_spec s HI) as (s' & ? & ? & ? & ? & ? & Hn & ?).
    exists s'. split_conj; try done. unfold completions. by rewrite Hn.
  - destruct (next_step_spec s HI) as (s' & ? & ? & ? & ? & ? & Hn & ?).
    exists s'. split_conj; try done. unfold completions. by rewrite Hn.
  - destruct (restart_spec s HI) as (s' & ? & ? & ? & ? & ? & Hn & Hl).
    exists s'. split_conj; try done; [|by left].
    unfold completions. by rewrite Hn.
  - destruct (timer_pending s h) eqn:Hp; simpl.
    + destruct (elapse_spec s h HI Hp)
        as (s' & ? & ? & ? & ? & Hlt & ? & ? & Hco & ?).
      exists s'. split_conj; try done. rewrite Hco.
      destruct (Z.ltb_spec (current_step s + 1) (len (session_instructions s)));
        destruct (Z.eqb_spec (current_step s + 1) (len (session_instructions s)));
        try done; lia.
    + exists s. rewrite (elapse_idle s h Hp). split_conj; try done. by left.
Qed.



(** ** The page and the service *)

(** The page of a stored session is the page [loaded] describes. *)
Lemma meditation_page_found db key m :
  get_session_by_id db (Some key) = Some m →
  meditation_page db key = loaded m.
Proof.
  intros Hget. unfold meditation_page, init, loaded. rewrite Hget. simpl.
  unfold get_session_by_id in Hget.
  destruct (db_get db key) as [row|] eqn:Hrow; [|done].
  destruct (ServiceFacts.db_get_in db key row Hrow) as [_ Hid].
  injection Hget as <-. simpl. by rewrite Hid.
Qed.

(** Without a stored session the page shows a notification and builds no
    widget, so that no button exists to click on. *)
Lemma meditation_page_not_found db key :
  get_session_by_id db (Some key) = None →
  ∃ s, meditation_page db key = Some s
    ∧ session s = None
    ∧ notifications s = [SessionNotFound]
    ∧ play_button s = None
    ∧ time_label s = None.
Proof.
  intros Hget. unfold meditation_page, init. rewrite Hget. simpl.
  eexists. split; [reflexivity|]. by split_conj.
Qed.

(** * The claims about the player *)

(** C1. In every state of a page in which the player is playing, a click
    on the play button pauses: the step is kept, no timer is pending any
    more, so whichever timers run out afterwards the state (and with it
    the step) stays as it is; and [_advance_to_next_step], if it were
    called all the same, would return at once. *)
Theorem no_auto_advance_after_pause (m : MeditationSession) (s : PlayerState) :
  reachable m s →
  is_playing s = true →
  ∃ s1, handle ClickPlay s = Some s1
    ∧ _pause_meditation s = Some s1
    ∧ is_playing s1 = false
    ∧ is_paused s1 = true
    ∧ current_step s1 = current_step s
    ∧ pending_timers s1 = []
    ∧ (∀ hs : list nat, run (Elapse <$> hs) s1 = Some s1)
    ∧ _advance_to_next_step s1 = Some s1.
Proof.
  intros Hr Hplay. destruct (reachable_Inv m s Hr) as [HI _].
  destruct (pause_spec s HI)
    as (s1 & Hp & HI1 & _ & Hc & Hpl & Hpa & _ & _ & Hnil).
  exists s1. split_conj; try done.
  - simpl. unfold _toggle_play.
    by rewrite (inv_playing s HI Hplay), Hplay.
  - intros hs. by apply no_pending_elapse.
  - unfold _advance_to_next_step. by rewrite Hpl.
Qed.

Lemma no_auto_advance_after_pause_witness :
  ∃ s s1, page_after demo_session [ClickPlay] = Some s
    ∧ is_playing s = true
    ∧ handle ClickPlay s = Some s1
    ∧ current_step s1 = current_step s
    ∧ run [Elapse 0%nat] s1 = Some s1.
Proof.
  eexists.
  destruct (no_auto_advance_after_pause demo_session
              (default (mkPlayer 0 None 0 false false None None None None None
                          None [] [])
                 (page_after demo_session [ClickPlay])))
    as (s1 & H1 & _ & _ & _ & H2 & _ & H3 & _).
  - apply (page_after_reachable _ [ClickPlay]). vm_compute. reflexivity.
  - vm_compute. reflexivity.
  - exists s1. split; [vm_compute; reflexivity|].
    split; [vm_compute; reflexivity|].
    split; [exact H1|]. split; [exact H2|]. exact (H3 [0%nat]).
Defined.

(** C2. In every state of a page at most one timer is pending. Every
    event either leaves the size of the timer store as it is, or ends by
    arming one timer on a state that has no pending timer. *)
Theorem at_most_one_pending_timer (m : MeditationSession) (s : PlayerState) :
  reachable m s →
  (length (pending_timers s) ≤ 1)%nat
  ∧ ∀ e, ∃ s', handle e s = Some s'
      ∧ (length (timers s') = length (timers s)
         ∨ ∃ d s1, s' = ui_timer d s1
                   ∧ pending_timers s1 = []
                   ∧ length (timers s1) = length (timers s)).
Proof.
  intros Hr. destruct (reachable_Inv m s Hr) as [HI _].
  split; [by apply Inv_pending_le|].
  intros e. destruct (handle_facts e s HI) as (s' & He & _ & _ & _ & _ & Harm).
  by exists s'.
Qed.

Lemma at_most_one_pending_timer_witness :
  ∃ s, page_after demo_session [ClickPlay; ClickNext; ClickNext; ClickPrevious]
       = Some s
    ∧ (length (pending_timers s) ≤ 1)%nat.
Proof.
  eexists. split; [vm_compute; reflexivity|].
  apply (at_most_one_pending_timer demo_session).
  apply (page_after_reachable _ [ClickPlay; ClickNext; ClickNext; ClickPrevious]).
  vm_compute. reflexivity.
Defined.

(** C6. While the player is playing a step of the list: if the step has
    a duration [d > 0], exactly one timer is pending and its interval is
    [d]; if the duration is absent or not positive, no timer is pending,
    and whichever timers run out the player stays where it is. *)
Theorem timer_armed_iff_positive_duration (m : MeditationSession)
    (s : PlayerState) (inst : MeditationInstruction) :
  reachable m s →
  is_playing s = true →
  instructions m !! Z.to_nat (current_step s) = Some inst →
  (∀ d, duration_seconds inst = Some d → 0 < d →
        pending_timers s = [mkTimer d Pending])
  ∧ (duration_seconds inst = None
     ∨ (∃ d, duration_seconds inst = Some d ∧ d ≤ 0) →
     pending_timers s = []
     ∧ ∀ hs : list nat, run (Elapse <$> hs) s = Some s).
Proof.
  intros Hr Hplay Hinst. destruct (reachable_Inv m s Hr) as [HI Hs].
  assert (Hl := reachable_instructions m s Hr).
  assert (Hrange := inv_range s HI).
  assert (Hlt : current_step s < len (session_instructions s)).
  { rewrite Hl. apply lookup_lt_Some in Hinst. unfold len. lia. }
  assert (Harm : armed_delay s =
    if has_duration (duration_seconds inst) then duration_seconds inst else None).
  { unfold armed_delay. rewrite Hplay, Hl, Hinst. rewrite <- Hl.
    by destruct (Z.ltb_spec (current_step s) (len (session_instructions s)));
      [|lia]. }
  assert (Hpt := inv_pending s HI). rewrite Harm in Hpt.
  split.
  - intros d Hd Hpos. rewrite Hd in Hpt. simpl in Hpt.
    destruct (Z.eqb_spec d 0); [lia|].
    by destruct (Z.ltb_spec 0 d); [|lia].
  - intros Hnone.
    assert (Hno : has_duration (duration_seconds inst) = false).
    { destruct Hnone as [->|(d & -> & Hd)]; [done|]. simpl.
      destruct (Z.ltb_spec 0 d); [lia|]. by rewrite andb_false_r. }
    rewrite Hno in Hpt. split; [done|].
    intros hs. by apply no_pending_elapse.
Qed.

Lemma timer_armed_iff_positive_duration_witness :
  ∃ s, page_after demo_session [ClickPlay; ClickNext] = Some s
    ∧ pending_timers s = []
    ∧ run [Elapse 0%nat; Elapse 1%nat] s = Some s.
Proof.
  eexists. split; [vm_compute; reflexivity|].
  destruct (timer_armed_iff_positive_duration demo_session
              (default (mkPlayer 0 None 0 false false None None None None None
                          None [] [])
                 (page_after demo_session [ClickPlay; ClickNext]))
              (mkInstruction (Some 2) 1 2 "Breathe" (Some 0) false))
    as [_ H].
  - apply (page_after_reachable _ [ClickPlay; ClickNext]). vm_compute. reflexivity.
  - vm_compute. reflexivity.
  - vm_compute. reflexivity.
  - destruct H as [H1 H2].
    + right. exists 0. split; [reflexivity|lia].
    + split; [exact H1|]. exact (H2 [0%nat; 1%nat]).
Defined.

(** C7. [_next_step] at the last index, [_previous_step] at index 0 and
    [_toggle_play] without instructions return the state they were given,
    every field of it, and raise nothing. *)
Theorem boundary_transitions_are_noops (s : PlayerState) :
  (current_step s = len (session_instructions s) - 1 → _next_step s = Some s)
  ∧ (current_step s = 0 → _previous_step s = Some s)
  ∧ (session_instructions s = [] → _toggle_play s = Some s).
Proof.
  split_conj.
  - intros Hlast. unfold _next_step. destruct (no_instructions s); [done|].
    by destruct (Z.ltb_spec (current_step s) (len (session_instructions s) - 1));
      [lia|].
  - intros Hzero. unfold _previous_step. by rewrite Hzero.
  - intros Hnil. unfold _toggle_play.
    assert (Hno : no_instructions s = true).
    { unfold no_instructions, session_instructions in *.
      destruct (session s) as [m0|]; [|done]. by rewrite Hnil. }
    by rewrite Hno.
Qed.

Lemma boundary_transitions_are_noops_witness :
  (∃ s, page_after demo_session [ClickPlay; ClickNext; ClickNext] = Some s
        ∧ current_step s = 2 ∧ _next_step s = Some s)
  ∧ (∃ s, page_after demo_session [ClickPlay] = Some s
          ∧ current_step s = 0 ∧ _previous_step s = Some s)
  ∧ (∃ s, page_after (session_of []) [] = Some s ∧ _toggle_play s = Some s).
Proof.
  split_conj.
  - eexists. split; [vm_compute; reflexivity|]. split; [reflexivity|].
    apply (boundary_transitions_are_noops
             (default (mkPlayer 0 None 0 false false None None None None None
                         None [] [])
                (page_after demo_session [ClickPlay; ClickNext; ClickNext]))).
    vm_compute. reflexivity.
  - eexists. split; [vm_compute; reflexivity|]. split; [reflexivity|].
    apply (boundary_transitions_are_noops
             (default (mkPlayer 0 None 0 false false None None None None None
                         None [] [])
                (page_after demo_session [ClickPlay]))).
    vm_compute. reflexivity.
  - eexists. split; [vm_compute; reflexivity|].
    apply (boundary_transitions_are_noops
             (default (mkPlayer 0 None 0 false false None None None None None
                         None [] [])
                (page_after (session_of []) []))).
    vm_compute. reflexivity.
Defined.


(** C3 as stated, that completion is reached by manual Next and happens
    once until Restart, fails on the code: Next at the last index does nothing,
    and after a completion Previous and Play lead to a second one. *)
Lemma completion_neither_by_next_nor_once :
  (∃ s, page_after (session_of [Some 30; Some 45])
          [ClickPlay; ClickNext; ClickNext] = Some s
        ∧ current_step s = 1 ∧ is_playing s = true ∧ completions s = 0%nat)
  ∧ (∃ s, page_after (session_of [Some 30])
            [ClickPlay; Elapse 0%nat; ClickPrevious; ClickPlay; Elapse 1%nat]
          = Some s
          ∧ current_step s = 1 ∧ completions s = 2%nat).
Proof.
  split; eexists; (split; [vm_compute; reflexivity|]); by split_conj.
Qed.

(** C3 (amended). The session completes exactly when the timer of the
    last step runs out: that event shows the completion notification
    once, leaves [current_step] at the length of the list, stops playing
    and leaves no timer pending, so that no timer event changes the state
    afterwards. No other event, manual Next included, completes. *)
Theorem completion_by_auto_advance (m : MeditationSession) (s : PlayerState)
    (e : Event) :
  reachable m s →
  ∃ s', handle e s = Some s'
    ∧ completions s' = (if completes e s then S (completions s) else completions s)
    ∧ (completes e s = true →
       0 < len (instructions m)
       ∧ current_step s' = len (instructions m)
       ∧ is_playing s' = false
       ∧ pending_timers s' = []
       ∧ ∀ hs : list nat, run (Elapse <$> hs) s' = Some s').
Proof.
  intros Hr. destruct (reachable_Inv m s Hr) as [HI Hs].
  assert (Hl := reachable_instructions m s Hr).
  destruct (handle_facts e s HI) as (s' & He & HI' & Hs' & Hc & Hco & _).
  exists s'. split_conj; try done.
  intros Hcomp. destruct e as [| | | |h]; try done. simpl in Hcomp, Hc.
  apply andb_true_iff in Hcomp as [Hp Heq%Z.eqb_eq]. rewrite Hp in Hc.
  destruct (elapse_spec s h HI Hp)
    as (s2 & He2 & _ & _ & _ & _ & _ & Hpl & _).
  assert (s2 = s') as -> by (simpl in He; congruence).
  assert (Hrange := inv_range s HI).
  assert (Hnil : pending_timers s' = []).
  { apply Inv_completed_clear; [done|].
    rewrite Hc, Heq. unfold session_instructions. by rewrite Hs'. }
  split_conj.
  - rewrite <- Hl. lia.
  - rewrite <- Hl. lia.
  - rewrite Hpl.
    by destruct (Z.ltb_spec (current_step s + 1) (len (session_instructions s)));
      [lia|].
  - done.
  - intros hs. by apply no_pending_elapse.
Qed.

Lemma completion_by_auto_advance_witness :
  ∃ s s', page_after demo_session [ClickPlay; ClickNext; ClickNext] = Some s
    ∧ handle (Elapse 1%nat) s = Some s'
    ∧ completions s' = 1%nat.
Proof.
  eexists.
  destruct (completion_by_auto_advance demo_session
              (default (mkPlayer 0 None 0 false false None None None None None
                          None [] [])
                 (page_after demo_session [ClickPlay; ClickNext; ClickNext]))
              (Elapse 1%nat))
    as (s' & H1 & H2 & _).
  - apply (page_after_reachable _ [ClickPlay; ClickNext; ClickNext]).
    vm_compute. reflexivity.
  - exists s'. split; [vm_compute; reflexivity|]. split; [exact H1|].
    rewrite H2. vm_compute. reflexivity.
Defined.





Lemma elapsed_seconds_take (l : list MeditationInstruction) (k : Z) :
  0 ≤ k → elapsed_seconds l k = sum_durations (take (Z.to_nat k) l).
Proof.
  intros Hk. unfold elapsed_seconds, sum_durations, py_slice_to.
  by destruct (Z.leb_spec 0 k); [|lia].
Qed.

(** C5. The display is to show the sum over [0, k) in every state. The
    code misses it at completion: [_advance_to_next_step] moves the step
    to the length and calls [_meditation_complete], which, unlike every
    other path that changes the step, does not call [_update_display].
    With a single instruction of 30 seconds, after Play and the timer
    running out the step is 1 and the label still reads 00:00, where the
    sum over [0, 1) gives 00:30. *)
Lemma display_stale_at_completion :
  ∃ s, page_after (session_of [Some 30]) [ClickPlay; Elapse 0%nat] = Some s
    ∧ current_step s = 1
    ∧ time_label s = Some "00:00"%string
    ∧ format_time
        (sum_durations
           (take (Z.to_nat (current_step s)) (instructions (session_of [Some 30]))))
      = "00:30"%string.
Proof.
  eexists. split; [vm_compute; reflexivity|]. by split_conj.
Qed.

(** Where the display is refreshed it shows what it should: in every
    state of a page whose step lies inside the list (or whose list is
    empty) the time label shows, as MM:SS, the sum of the durations,
    absent ones counting 0, of the instructions before the current step.
    Only in a completed state is the label left at the sum for the last
    step. *)
Theorem elapsed_time_display (m : MeditationSession) (s : PlayerState) :
  reachable m s →
  (current_step s < len (instructions m) ∨ instructions m = [] →
   time_label s =
     Some (format_time
             (sum_durations (take (Z.to_nat (current_step s)) (instructions m)))))
  ∧ (0 < len (instructions m) → current_step s = len (instructions m) →
     time_label s =
       Some (format_time
               (sum_durations
                  (take (Z.to_nat (len (instructions m) - 1)) (instructions m))))).
Proof.
  intros Hr. destruct (reachable_Inv m s Hr) as [HI Hs].
  assert (Hl := reachable_instructions m s Hr).
  assert (Hrange := inv_range s HI). assert (Hd := inv_display s HI).
  rewrite Hl in Hd, Hrange. split.
  - intros [Hlt|Hnil].
    + rewrite Hd.
      destruct (Z.ltb_spec (current_step s) (len (instructions m))); [|lia].
      rewrite elapsed_seconds_take by lia. done.
    + rewrite Hd, Hnil, elapsed_seconds_nil, take_nil. done.
  - intros Hpos Hcs. rewrite Hd.
    destruct (Z.ltb_spec (current_step s) (len (instructions m))); [lia|].
    rewrite elapsed_seconds_take by lia. done.
Qed.

Lemma elapsed_time_display_witness :
  ∃ s, page_after demo_session [ClickPlay; Elapse 0%nat; ClickNext] = Some s
    ∧ current_step s = 2
    ∧ time_label s = Some "00:30"%string.
Proof.
  eexists. split; [vm_compute; reflexivity|]. split; [reflexivity|].
  destruct (elapsed_time_display demo_session
              (default (mkPlayer 0 None 0 false false None None None None None
                          None [] [])
                 (page_after demo_session [ClickPlay; Elapse 0%nat; ClickNext])))
    as [H _].
  - apply (page_after_reachable _ [ClickPlay; Elapse 0%nat; ClickNext]).
    vm_compute. reflexivity.
  - apply H. left. vm_compute. reflexivity.
Defined.

(** C10 as stated, that [current_step] equals the length exactly when
    the player has completed, fails on the code in both directions: with an
    empty list the step is at the length from the start, without any
    completion; and after a completion Previous brings the step back
    into the list. *)
Lemma step_at_length_not_iff_completed :
  (∃ s, page_after (session_of []) [] = Some s
        ∧ current_step s = len (instructions (session_of []))
        ∧ completions s = 0%nat
        ∧ play_button s = Some TextStart)
  ∧ (∃ s, page_after (session_of [Some 30])
            [ClickPlay; Elapse 0%nat; ClickPrevious] = Some s
          ∧ completions s = 1%nat
          ∧ play_button s = Some TextComplete
          ∧ current_step s = 0
          ∧ len (instructions (session_of [Some 30])) = 1).
Proof.
  split; eexists; (split; [vm_compute; reflexivity|]); by split_conj.
Qed.

(** C10 (amended). In every state of a page [0 <= current_step <= length]
    holds. With a non-empty list the step is at the length, where
    indexing the list raises, only after a completion; an event that
    completes leaves the step at the length; and an event brings the step
    to the length only by completing. *)
Theorem current_step_in_range (m : MeditationSession) (s : PlayerState) :
  reachable m s →
  0 ≤ current_step s ≤ len (instructions m)
  ∧ (0 < len (instructions m) → current_step s = len (instructions m) →
     (1 ≤ completions s)%nat ∧ py_index (instructions m) (current_step s) = None)
  ∧ ∀ e, ∃ s', handle e s = Some s'
      ∧ (completions s' ≠ completions s → current_step s' = len (instructions m))
      ∧ (0 < len (instructions m) → current_step s ≠ len (instructions m) →
         current_step s' = len (instructions m) →
         completions s' = S (completions s)).
Proof.
  intros Hr. destruct (reachable_Inv m s Hr) as [HI Hs].
  assert (Hl := reachable_instructions m s Hr).
  assert (Hrange := inv_range s HI). rewrite Hl in Hrange.
  split_conj; try lia.
  - intros Hpos Hcs. split.
    + apply (inv_completed s HI); by rewrite Hl.
    + unfold py_index. destruct (Z.leb_spec 0 (current_step s)); [|lia].
      apply lookup_ge_None. unfold len in Hcs. lia.
  - intros e. destruct (handle_facts e s HI) as (s' & He & _ & _ & Hc & Hco & _).
    exists s'. split; [done|]. rewrite Hco, Hc.
    destruct e as [| | | |h]; simpl; rewrite ?Hl; split; try done; try lia.
    + destruct (Z.ltb_spec 0 (current_step s)); lia.
    + destruct (Z.ltb_spec (current_step s) (len (instructions m) - 1)); lia.
    + destruct (timer_pending s h); simpl; [|done].
      destruct (Z.eqb_spec (current_step s + 1) (len (instructions m))); lia.
    + destruct (timer_pending s h); simpl; [|lia].
      destruct (Z.eqb_spec (current_step s + 1) (len (instructions m))); lia.
Qed.

Lemma current_step_in_range_witness :
  ∃ s, page_after demo_session [ClickPlay; ClickNext; ClickNext; Elapse 1%nat]
       = Some s
    ∧ 0 ≤ current_step s ≤ 3
    ∧ current_step s = 3.
Proof.
  eexists. split; [vm_compute; reflexivity|]. split; [|reflexivity].
  apply (current_step_in_range demo_session
           (default (mkPlayer 0 None 0 false false None None None None None
                       None [] [])
              (page_after demo_session
                 [ClickPlay; ClickNext; ClickNext; Elapse 1%nat]))).
  apply (page_after_reachable _
           [ClickPlay; ClickNext; ClickNext; Elapse 1%nat]).
  vm_compute. reflexivity.
Defined.

End PlayerFacts.

(** * Further properties of the session service *)

Module ServiceExtras.

Lemma next_key_gt keys k : Some k ∈ keys → k < next_key keys.
Proof.
  unfold next_key. induction keys as [|a keys IH]; intros Hin.
  - by apply elem_of_nil in Hin.
  - simpl. apply elem_of_cons in Hin as [<-|Hin]; simpl; [lia|].
    specialize (IH Hin). lia.
Qed.

Lemma next_key_pos keys : 1 ≤ next_key keys.
Proof.
  unfold next_key. induction keys as [|a keys IH]; simpl; lia.
Qed.

Lemma next_key_fresh keys : Some (next_key keys) ∉ keys.
Proof. intros Hin. apply next_key_gt in Hin. lia. Qed.

Lemma find_app_l {A} (f : A → bool) l1 l2 x :
  find f l1 = Some x → find f (l1 ++ l2) = Some x.
Proof.
  induction l1 as [|a l1 IH]; simpl; [done|].
  destruct (f a); [done|exact IH].
Qed.

Lemma find_app_r {A} (f : A → bool) l1 l2 :
  find f l1 = None → find f (l1 ++ l2) = find f l2.
Proof.
  induction l1 as [|a l1 IH]; simpl; [done|].
  destruct (f a); [done|exact IH].
Qed.

Lemma db_get_None_iff db key :
  db_get db key = None ↔ Some key ∉ session_ids db.
Proof.
  unfold db_get, session_ids. split.
  - intros Hf Hin. apply list_elem_of_fmap in Hin as (m & Hm & Hin).
    apply list_elem_of_In in Hin.
    pose proof (find_none _ _ Hf m Hin) as Hb. simpl in Hb.
    apply bool_decide_eq_false in Hb. congruence.
  - intros Hnot. destruct (find _ _) as [row|] eqn:Hf; [|done].
    apply find_some in Hf as [Hin Hk].
    apply bool_decide_eq_true in Hk. apply list_elem_of_In in Hin.
    destruct Hnot. apply list_elem_of_fmap. eauto.
Qed.

(** Looking up a key in a store that only gained sessions with other keys
    and any instructions. *)
Lemma db_get_app_other db rows instrs key :
  (∀ m, m ∈ rows → ms_id m ≠ Some key) →
  db_get (mkDatabase (meditation_sessions db ++ rows) instrs) key = db_get db key.
Proof.
  intros Hother. unfold db_get. simpl.
  destruct (find _ (meditation_sessions db)) as [row|] eqn:Hf.
  - by apply find_app_l.
  - rewrite find_app_r by done.
    destruct (find _ rows) as [row|] eqn:Hr; [|done].
    apply find_some in Hr as [Hin Hk].
    apply bool_decide_eq_true in Hk. apply list_elem_of_In in Hin.
    by destruct (Hother row Hin).
Qed.

Lemma select_instructions_app db sessions rows key :
  select_instructions
    (mkDatabase sessions (meditation_instructions db ++ rows)) key =
  foldl (fun acc x => insert_by_step_order x acc) (select_instructions db key)
    (filter (fun i => session_id i = key) rows).
Proof.
  unfold select_instructions, order_by_step_order. simpl.
  rewrite filter_app, reverse_app, foldr_app.
  generalize (foldr insert_by_step_order []
                (reverse (filter (λ i, session_id i = key)
                            (meditation_instructions db)))).
  induction (filter (λ i, session_id i = key) rows) as [|x r IH] using rev_ind;
    intros acc; [done|].
  rewrite reverse_app, foldl_app. simpl. by rewrite IH.
Qed.


Lemma select_instructions_same_instrs db sessions key :
  select_instructions (mkDatabase sessions (meditation_instructions db)) key
  = select_instructions db key.
Proof. done. Qed.

Lemma filter_none {A} (P : A → Prop) `{∀ x, Decision (P x)} (l : list A) :
  (∀ x, x ∈ l → ¬ P x) → filter P l = [].
Proof.
  induction l as [|a l IH]; intros Hno; [done|].
  rewrite filter_cons_False by (apply Hno; by left).
  apply IH. intros x Hx. apply Hno. by right.
Qed.

Lemma filter_all {A} (P : A → Prop) `{∀ x, Decision (P x)} (l : list A) :
  (∀ x, x ∈ l → P x) → filter P l = l.
Proof.
  induction l as [|a l IH]; intros Hall; [done|].
  rewrite filter_cons_True by (apply Hall; by left).
  f_equal. apply IH. intros x Hx. apply Hall. by right.
Qed.

Lemma select_instructions_unowned db key :
  db_ok db → Some key ∉ session_ids db → select_instructions db key = [].
Proof.
  intros Hok Hnot. unfold select_instructions.
  assert (Hnil : filter (λ i, session_id i = key) (meditation_instructions db) = []).
  { apply filter_none. intros i Hi Heq.
    apply Hnot. rewrite <- Heq. by apply (ok_owner db Hok). }
  by rewrite Hnil.
Qed.

Lemma create_session_ok data db :
  db_ok db → db_ok (create_session data db).1.
Proof.
  intros Hok. unfold create_session. simpl. constructor; simpl.
  - intros m Hm. apply elem_of_app in Hm as [Hm|Hm].
    + by apply (ok_keys db Hok).
    + apply list_elem_of_singleton in Hm as ->. simpl.
      eexists. split; [done|]. apply next_key_pos.
  - unfold session_ids. simpl. rewrite fmap_app. simpl.
    apply NoDup_app. split; [apply (ok_unique db Hok)|].
    split; [|apply NoDup_singleton].
    intros k Hk Hin. apply list_elem_of_singleton in Hin as ->.
    by apply next_key_fresh in Hk.
  - intros i Hi. unfold session_ids. simpl. rewrite fmap_app.
    apply elem_of_app. left. by apply (ok_owner db Hok).
Qed.

(** X1. Creating a session and fetching it by the key it was given
    returns the created row, with the fields of the request, active and
    without instructions; the store stays well-formed, every other key
    fetches what it fetched before, and the list of active sessions gains
    the new row at its end. *)
Theorem create_session_then_get (data : MeditationSessionCreate) (db : Database) :
  db_ok db →
  let db' := (create_session data db).1 in
  let row := (create_session data db).2 in
  db_ok db'
  ∧ get_session_by_id db' (ms_id row) = Some row
  ∧ (title row, description row, meditation_type row, difficulty_level row,
     duration_minutes row, is_active row, instructions row)
    = (sc_title data, sc_description data, sc_meditation_type data,
       sc_difficulty_level data, sc_duration_minutes data, true, [])
  ∧ (∀ key, Some key ≠ ms_id row →
       get_session_by_id db' (Some key) = get_session_by_id db (Some key))
  ∧ get_active_sessions db' = get_active_sessions db ++ [row].
Proof.
  intros Hok db' row. split; [by apply create_session_ok|].
  assert (Hfresh : Some (next_key (ms_id <$> meditation_sessions db))
                   ∉ session_ids db) by apply next_key_fresh.
  split_and!.
  - subst db' row. unfold create_session, get_session_by_id. simpl.
    unfold db_get at 1. simpl.
    rewrite find_app_r by (by apply db_get_None_iff).
    simpl. rewrite bool_decide_eq_true_2 by done.
    unfold with_instructions. simpl.
    rewrite select_instructions_same_instrs.
    by rewrite select_instructions_unowned.
  - done.
  - intros key Hkey. subst db' row. unfold create_session, get_session_by_id.
    simpl. rewrite db_get_app_other.
    + by rewrite select_instructions_same_instrs.
    + intros m Hm. apply list_elem_of_singleton in Hm as ->. simpl in *.
      congruence.
  - subst db' row. unfold get_active_sessions, create_session. simpl.
    by rewrite filter_app.
Qed.

Lemma create_session_then_get_witness :
  let db' := (create_session
                (mkSessionCreate "Evening" "Wind down" BODY_SCAN ADVANCED 20)
                ordered_session_db).1 in
  get_session_by_id db' (Some 2)
  = Some (mkSession (Some 2) "Evening" "Wind down" BODY_SCAN ADVANCED 20 true [])
  ∧ length (get_active_sessions db') = 2%nat.
Proof.
  assert (Hok : db_ok ordered_session_db).
  { constructor.
    - intros m Hm. vm_compute in Hm. apply list_elem_of_singleton in Hm as ->.
      exists 1. by split.
    - vm_compute. apply NoDup_singleton.
    - intros i Hi. vm_compute in Hi. vm_compute.
      repeat (apply elem_of_cons in Hi as [->|Hi]; [apply list_elem_of_singleton; done|]).
      by apply elem_of_nil in Hi. }
  destruct (create_session_then_get
              (mkSessionCreate "Evening" "Wind down" BODY_SCAN ADVANCED 20)
              ordered_session_db Hok) as (_ & Hget & _ & _ & Hact).
  split; [exact Hget|]. rewrite Hact. reflexivity.
Defined.


Lemma add_instruction_ok data db :
  db_ok db → Some (ic_session_id data) ∈ session_ids db →
  db_ok (add_instruction data db).1.
Proof.
  intros Hok Hin. unfold add_instruction. simpl. constructor; simpl.
  - apply (ok_keys db Hok).
  - apply (ok_unique db Hok).
  - intros i Hi. apply elem_of_app in Hi as [Hi|Hi].
    + by apply (ok_owner db Hok).
    + by apply list_elem_of_singleton in Hi as ->.
Qed.

Lemma insert_by_step_order_last x l :
  Forall (fun y => step_order y < step_order x) l →
  insert_by_step_order x l = l ++ [x].
Proof.
  induction l as [|y l IH]; intros Hall; simpl; [done|].
  inversion Hall as [|? ? Hy Hl]; subst.
  destruct (Z.ltb_spec (step_order x) (step_order y)); [lia|].
  by rewrite IH.
Qed.

(** X2. Adding an instruction to a stored session and fetching the
    session returns the session with its former instructions and the new
    row, still in ascending step order; the row has the fields of the
    request; the store stays well-formed and every other session fetches
    what it fetched before. If the new step order is above all former
    ones of the session, the new row comes last. *)
Theorem add_instruction_then_get (data : MeditationInstructionCreate)
    (db : Database) (m : MeditationSession) :
  db_ok db →
  get_session_by_id db (Some (ic_session_id data)) = Some m →
  let db' := (add_instruction data db).1 in
  let row := (add_instruction data db).2 in
  db_ok db'
  ∧ (session_id row, instruction_view row, is_pause row)
    = (ic_session_id data,
       (ic_step_order data, ic_instruction_text data, ic_duration_seconds data),
       ic_is_pause data)
  ∧ (∃ m', get_session_by_id db' (Some (ic_session_id data)) = Some m'
           ∧ m' = with_instructions (instructions m') m
           ∧ instructions m' ≡ₚ row :: instructions m
           ∧ StronglySorted Z.le (step_orders (instructions m'))
           ∧ (Forall (fun y => step_order y < ic_step_order data) (instructions m) →
              instructions m' = instructions m ++ [row]))
  ∧ (∀ key, key ≠ ic_session_id data →
       get_session_by_id db' (Some key) = get_session_by_id db (Some key)).
Proof.
  intros Hok Hget db' row.
  unfold get_session_by_id in Hget.
  destruct (db_get db (ic_session_id data)) as [r0|] eqn:Hr0; [|done].
  injection Hget as <-.
  assert (Hin : Some (ic_session_id data) ∈ session_ids db).
  { destruct (decide (Some (ic_session_id data) ∈ session_ids db)) as [|Hn];
      [done|]. apply db_get_None_iff in Hn. congruence. }
  split; [by apply add_instruction_ok|]. split; [done|].
  assert (Hdb : ∀ key, db_get db' key = db_get db key) by done.
  split.
  - eexists. unfold get_session_by_id. rewrite Hdb, Hr0.
    split; [done|]. simpl. split; [reflexivity|].
    subst db' row. unfold add_instruction. simpl.
    rewrite select_instructions_app. simpl.
    rewrite filter_cons_True, filter_nil by done. simpl.
    split_and!.
    + by rewrite ServiceFacts.insert_by_step_order_perm.
    + apply ServiceFacts.insert_by_step_order_sorted,
        ServiceFacts.order_by_step_order_sorted.
    + intros Hall. by apply insert_by_step_order_last.
  - intros key Hkey. unfold get_session_by_id. rewrite Hdb.
    destruct (db_get db key) as [r|]; [|done]. do 2 f_equal.
    subst db'. unfold add_instruction. simpl.
    rewrite select_instructions_app. simpl.
    by rewrite filter_cons_False, filter_nil by (simpl; congruence).
Qed.

Lemma add_instruction_then_get_witness :
  let data := mkInstructionCreate 1 4 "Fourth instruction" None true in
  (λ m, instruction_view <$> instructions m)
    <$> get_session_by_id (add_instruction data ordered_session_db).1 (Some 1)
  = Some [(1, "First instruction", Some 30); (2, "Second instruction", Some 30);
          (3, "Third instruction", Some 30); (4, "Fourth instruction", None)]%string.
Proof.
  assert (Hok : db_ok ordered_session_db).
  { constructor.
    - intros m Hm. vm_compute in Hm. apply list_elem_of_singleton in Hm as ->.
      exists 1. by split.
    - vm_compute. apply NoDup_singleton.
    - intros i Hi. vm_compute in Hi. vm_compute.
      repeat (apply elem_of_cons in Hi as [->|Hi]; [apply list_elem_of_singleton; done|]).
      by apply elem_of_nil in Hi. }
  intros data.
  destruct (add_instruction_then_get data ordered_session_db
              (default (mkSession None "" "" BREATHING BEGINNER 0 false [])
                 (get_session_by_id ordered_session_db (Some 1))) Hok eq_refl)
    as (_ & _ & (m' & Hget & _ & _ & _ & Hlast) & _).
  change (Some 1) with (Some (ic_session_id data)).
  rewrite Hget. simpl. rewrite Hlast; [reflexivity|].
  vm_compute. repeat constructor.
Defined.


Lemma ordered_session_db_ok : db_ok ordered_session_db.
Proof.
  constructor.
  - intros m Hm. vm_compute in Hm. apply list_elem_of_singleton in Hm as ->.
    exists 1. by split.
  - vm_compute. apply NoDup_singleton.
  - intros i Hi. vm_compute in Hi. vm_compute.
    repeat (apply elem_of_cons in Hi as [->|Hi];
            [apply list_elem_of_singleton; done|]).
    by apply elem_of_nil in Hi.
Qed.

Lemma empty_db_ok : db_ok empty_db.
Proof.
  constructor; simpl.
  - intros m Hm. by apply elem_of_nil in Hm.
  - apply NoDup_nil_2.
  - intros i Hi. by apply elem_of_nil in Hi.
Qed.

Lemma add_enumerated_spec sid i l db :
  add_enumerated sid i l db =
  mkDatabase (meditation_sessions db)
    (meditation_instructions db
     ++ enumerated_rows sid i l (meditation_instructions db)).
Proof.
  revert i db. induction l as [|[text d] l IH]; intros i db; simpl.
  - rewrite app_nil_r. by destruct db.
  - rewrite IH. simpl. by rewrite <- app_assoc.
Qed.

Lemma enumerated_rows_views sid i l table :
  instruction_view <$> enumerated_rows sid i l table = enumerated_views i l.
Proof.
  revert i table. induction l as [|[text d] l IH]; intros i table; simpl; [done|].
  by rewrite IH.
Qed.

Lemma enumerated_rows_owner sid i l table r :
  r ∈ enumerated_rows sid i l table → session_id r = sid ∧ i ≤ step_order r.
Proof.
  revert i table. induction l as [|[text d] l IH]; intros i table Hr; simpl in Hr.
  - by apply elem_of_nil in Hr.
  - apply elem_of_cons in Hr as [->|Hr]; [simpl; lia|].
    destruct (IH _ _ Hr). lia.
Qed.

Lemma enumerated_rows_sorted sid i l table :
  StronglySorted Z.lt (step_orders (enumerated_rows sid i l table)).
Proof.
  unfold step_orders.
  revert i table. induction l as [|[text d] l IH]; intros i table; simpl.
  - constructor.
  - constructor; [apply IH|]. apply Forall_forall. intros k Hk.
    apply list_elem_of_fmap in Hk as (r & -> & Hr).
    destruct (enumerated_rows_owner _ _ _ _ _ Hr). lia.
Qed.

(** Rows that are already in strictly ascending step order come back as
    they are. *)
Lemma order_by_step_order_id l :
  StronglySorted Z.lt (step_orders l) → order_by_step_order l = l.
Proof.
  unfold step_orders, order_by_step_order.
  induction l as [|x l IH] using rev_ind; intros Hs; [done|].
  rewrite reverse_app. simpl. rewrite fmap_app in Hs.
  apply StronglySorted_app in Hs as (Hlt & Hl & _).
  rewrite IH by done. apply insert_by_step_order_last.
  apply Forall_forall. intros y Hy. apply Hlt.
  - apply list_elem_of_fmap. eauto.
  - simpl. by left.
Qed.

Lemma foldl_insert rows :
  foldl (fun acc x => insert_by_step_order x acc) [] rows
  = order_by_step_order rows.
Proof.
  unfold order_by_step_order.
  induction rows as [|x rows IH] using rev_ind; [done|].
  rewrite foldl_app, reverse_app. simpl. by rewrite IH.
Qed.

Lemma seed_spec data l db :
  db_ok db →
  let db' := seed data l db in
  let row := (create_session data db).2 in
  db_ok db'
  ∧ meditation_sessions db' = meditation_sessions db ++ [row]
  ∧ (∀ key, Some key ∈ session_ids db →
       get_session_by_id db' (Some key) = get_session_by_id db (Some key))
  ∧ ∃ m, get_session_by_id db' (ms_id row) = Some m
         ∧ m = with_instructions (instructions m) row
         ∧ instruction_view <$> instructions m = enumerated_views 1 l.
Proof.
  intros Hok db' row. subst db'. unfold seed. rewrite add_enumerated_spec.
  set (k := next_key (session_ids db)).
  set (rows := enumerated_rows k 1 l _).
  assert (Hfresh : Some k ∉ session_ids db) by apply next_key_fresh.
  assert (Hok1 := create_session_ok data db Hok).
  assert (Hrows : ∀ r, r ∈ rows → session_id r = k).
  { intros r Hr. by destruct (enumerated_rows_owner _ _ _ _ _ Hr). }
  simpl meditation_sessions. simpl meditation_instructions.
  split_and!.
  - constructor; simpl.
    + apply (ok_keys _ Hok1).
    + apply (ok_unique _ Hok1).
    + intros i Hi. apply elem_of_app in Hi as [Hi|Hi].
      * by apply (ok_owner _ Hok1).
      * rewrite (Hrows i Hi). unfold session_ids. simpl. rewrite fmap_app.
        apply elem_of_app. right. by apply list_elem_of_singleton.
  - done.
  - intros key Hkey. unfold get_session_by_id. rewrite db_get_app_other.
    + destruct (db_get db key) as [r|]; [|done]. do 2 f_equal.
      rewrite select_instructions_app.
      rewrite filter_none; [done|].
      intros r' Hr' Heq. rewrite (Hrows r' Hr') in Heq. congruence.
    + intros m Hm. apply list_elem_of_singleton in Hm as ->. simpl.
      fold (session_ids db). fold k. congruence.
  - eexists. unfold get_session_by_id. subst row. simpl ms_id.
    fold (session_ids db). fold k.
    unfold db_get at 1. simpl.
    rewrite find_app_r by (by apply db_get_None_iff).
    simpl. fold (session_ids db). fold k.
    rewrite bool_decide_eq_true_2 by done.
    split; [done|]. split; [reflexivity|]. simpl.
    rewrite select_instructions_app.
    rewrite (select_instructions_unowned db k Hok Hfresh).
    rewrite filter_all by done.
    rewrite foldl_insert, order_by_step_order_id
      by apply enumerated_rows_sorted.
    apply enumerated_rows_views.
Qed.


Lemma create_sample_data_seed db :
  create_sample_data db =
  seed (mkSessionCreate "Full Body Relaxation"
          "A soothing body scan meditation to release tension and promote deep relaxation."
          BODY_SCAN INTERMEDIATE 20) bodyscan_instructions
    (seed (mkSessionCreate "Present Moment Awareness"
             "Cultivate awareness of the present moment through mindful observation."
             MINDFULNESS BEGINNER 15) mindfulness_instructions
       (seed (mkSessionCreate "Basic Breathing Meditation"
                "A gentle introduction to meditation through focused breathing. Perfect for beginners."
                BREATHING BEGINNER 10) breathing_instructions db)).
Proof.
  unfold create_sample_data, seed, session_ids, create_session.
  cbn [fst snd ms_id]. reflexivity.
Qed.

(** X3. On a well-formed store [create_sample_data] adds exactly three
    active sessions, a breathing, a mindfulness and a body-scan one, in
    this order after the active sessions there were. Fetching each of
    them returns its instructions numbered 1, 2, ... in the order of the
    source lists, with their texts and durations. The store stays
    well-formed and every session stored before fetches as before. *)
Theorem create_sample_data_seeds (db : Database) :
  db_ok db →
  let db' := create_sample_data db in
  let views := fun s : MeditationSession =>
    (fun m => instruction_view <$> instructions m)
      <$> get_session_by_id db' (ms_id s) in
  db_ok db'
  ∧ (∀ key, Some key ∈ session_ids db →
       get_session_by_id db' (Some key) = get_session_by_id db (Some key))
  ∧ ∃ breathing mindfulness bodyscan,
      get_active_sessions db'
      = get_active_sessions db ++ [breathing; mindfulness; bodyscan]
      ∧ (meditation_type breathing, difficulty_level breathing,
         duration_minutes breathing) = (BREATHING, BEGINNER, 10)
      ∧ (meditation_type mindfulness, difficulty_level mindfulness,
         duration_minutes mindfulness) = (MINDFULNESS, BEGINNER, 15)
      ∧ (meditation_type bodyscan, difficulty_level bodyscan,
         duration_minutes bodyscan) = (BODY_SCAN, INTERMEDIATE, 20)
      ∧ views breathing = Some (enumerated_views 1 breathing_instructions)
      ∧ views mindfulness = Some (enumerated_views 1 mindfulness_instructions)
      ∧ views bodyscan = Some (enumerated_views 1 bodyscan_instructions).
Proof.
  intros Hok db' views. subst views db'. rewrite create_sample_data_seed.
  set (d1 := mkSessionCreate "Basic Breathing Meditation" _ _ _ _).
  set (d2 := mkSessionCreate "Present Moment Awareness" _ _ _ _).
  set (d3 := mkSessionCreate "Full Body Relaxation" _ _ _ _).
  destruct (seed_spec d1 breathing_instructions db Hok)
    as (Hok1 & Hs1 & Hkeep1 & m1 & Hg1 & _ & Hv1).
  set (db1 := seed d1 breathing_instructions db) in *.
  destruct (seed_spec d2 mindfulness_instructions db1 Hok1)
    as (Hok2 & Hs2 & Hkeep2 & m2 & Hg2 & _ & Hv2).
  set (db2 := seed d2 mindfulness_instructions db1) in *.
  destruct (seed_spec d3 bodyscan_instructions db2 Hok2)
    as (Hok3 & Hs3 & Hkeep3 & m3 & Hg3 & _ & Hv3).
  set (db3 := seed d3 bodyscan_instructions db2) in *.
  set (r1 := (create_session d1 db).2) in *.
  set (r2 := (create_session d2 db1).2) in *.
  set (r3 := (create_session d3 db2).2) in *.
  assert (Hin1 : ∀ key, Some key ∈ session_ids db → Some key ∈ session_ids db1).
  { intros key Hk. unfold session_ids. rewrite Hs1, fmap_app.
    apply elem_of_app. by left. }
  assert (Hin2 : ∀ key, Some key ∈ session_ids db1 → Some key ∈ session_ids db2).
  { intros key Hk. unfold session_ids. rewrite Hs2, fmap_app.
    apply elem_of_app. by left. }
  assert (Hr1 : ms_id r1 ∈ session_ids db1).
  { unfold session_ids. rewrite Hs1, fmap_app. apply elem_of_app. right.
    by apply list_elem_of_singleton. }
  assert (Hr2 : ms_id r2 ∈ session_ids db2).
  { unfold session_ids. rewrite Hs2, fmap_app. apply elem_of_app. right.
    by apply list_elem_of_singleton. }
  split; [done|]. split.
  { intros key Hk. rewrite Hkeep3, Hkeep2, Hkeep1; auto. }
  exists r1, r2, r3. split_and!; try done.
  - unfold get_active_sessions. rewrite Hs3, Hs2, Hs1, !filter_app.
    by rewrite <- !app_assoc.
  - change (ms_id r1) with (Some (next_key (session_ids db))) in *.
    rewrite Hkeep3, Hkeep2, Hg1 by auto. simpl. by rewrite Hv1.
  - change (ms_id r2) with (Some (next_key (session_ids db1))) in *.
    rewrite Hkeep3, Hg2 by auto. simpl. by rewrite Hv2.
  - rewrite Hg3. simpl. by rewrite Hv3.
Qed.

Lemma create_sample_data_seeds_witness :
  length (get_active_sessions (create_sample_data empty_db)) = 3%nat
  ∧ (fun m => length (instructions m))
      <$> get_session_by_id (create_sample_data empty_db) (Some 3)
    = Some 19%nat.
Proof.
  destruct (create_sample_data_seeds empty_db empty_db_ok)
    as (_ & _ & b & mi & bs & Hact & _ & _ & _ & _ & _ & Hbs).
  split.
  - rewrite Hact. reflexivity.
  - vm_compute. reflexivity.
Defined.

End ServiceExtras.

(** * Further properties of the meditation player *)

Module PlayerExtras.
Import PlayerFacts.

Section NonEmpty.

Variable m : MeditationSession.
Hypothesis Hne : 0 < len (instructions m).

Local Abbreviation n := (len (instructions m)).

Ltac pcbn :=
  cbv beta iota delta
    [set_progress_bar set_step_info_label set_instruction_label set_time_label
     set_current_step set_is_playing set_is_paused set_timer set_play_button
     set_timers set_notifications ui_notify ui_timer cancel_timer
     progress_bar step_info_label instruction_label time_label truthy
     session_instructions session current_step player_session_id
     is_playing is_paused timer play_button timers notifications
     negb orb andb page_state cancelled].

Lemma shown_index_in step : step < n → shown_index m step = step.
Proof.
  unfold shown_index. intros H.
  by destruct (Z.ltb_spec step (len (instructions m))); [|lia].
Qed.

Lemma shown_index_end step : n ≤ step → shown_index m step = n - 1.
Proof.
  unfold shown_index. intros H.
  by destruct (Z.ltb_spec step (len (instructions m))); [lia|].
Qed.

Lemma label_of_end step : n ≤ step → label_of m step = TextMeditationComplete.
Proof.
  unfold label_of. intros H.
  by destruct (Z.ltb_spec step (len (instructions m))); [lia|].
Qed.

Lemma no_instructions_widgeted id step pl pa tm il pb tl btn si tms nots :
  no_instructions
    (mkPlayer id (Some m) step pl pa tm il pb tl btn si tms nots) = false.
Proof.
  unfold no_instructions. simpl. unfold len in Hne.
  destruct (instructions m); [simpl in Hne; lia|done].
Qed.

Lemma update_display_widgeted id step pl pa tm il pb tl btn si tms nots :
  0 ≤ step < n →
  _update_display
    (mkPlayer id (Some m) step pl pa tm (Some il) (Some pb) (Some tl) (Some btn)
       (Some si) tms nots)
  = Some (mkPlayer id (Some m) step pl pa tm
            (Some (label_of m step))
            (Some (shown_index m step, Z.max (n - 1) 1))
            (Some (format_time (elapsed_seconds (instructions m) (shown_index m step))))
            (Some btn)
            (Some (format_step_info (shown_index m step) n))
            tms nots).
Proof.
  intros Hstep. unfold _update_display.
  rewrite no_instructions_widgeted.
  rewrite shown_index_in by lia. unfold label_of.
  destruct (py_index_in_range (instructions m) step) as [Hpy [inst Hinst]];
    [done|].
  pcbn.
  destruct (Z.ltb_spec 0 n); [|lia].
  destruct (Z.ltb_spec step n); [|lia].
  rewrite Hpy, Hinst. reflexivity.
Qed.

Lemma start_current_step_widgeted id step pl pa tm il pb tl btn si tms nots :
  0 ≤ step < n →
  _start_current_step
    (mkPlayer id (Some m) step pl pa tm (Some il) (Some pb) (Some tl) (Some btn)
       (Some si) tms nots)
  = Some (mkPlayer id (Some m) step pl pa (armed_timer m step tm tms).1
            (Some (label_of m step))
            (Some (shown_index m step, Z.max (n - 1) 1))
            (Some (format_time (elapsed_seconds (instructions m) (shown_index m step))))
            (Some btn)
            (Some (format_step_info (shown_index m step) n))
            (armed_timer m step tm tms).2 nots).
Proof.
  intros Hstep. unfold _start_current_step.
  rewrite no_instructions_widgeted, update_display_widgeted by done.
  pcbn.
  destruct (Z.leb_spec n step); [lia|].
  destruct (py_index_in_range (instructions m) step) as [Hpy [inst Hinst]];
    [done|].
  unfold armed_timer. rewrite Hpy, Hinst. simpl.
  by destruct (has_duration (duration_seconds inst)).
Qed.

Lemma toggle_play_page step btn tm tms nots :
  0 ≤ step ≤ n →
  ∃ tm' tms',
    _toggle_play (page_state m step btn tm tms nots)
    = Some (page_state m step
              (visible_next m ClickPlay false step btn).2 tm' tms' nots).
Proof.
  intros Hstep. unfold _toggle_play, page_state.
  rewrite no_instructions_widgeted. pcbn.
  assert (Hplay : ∀ b, b ≠ TextPause →
    ∃ tm' tms',
      _start_meditation
        (mkPlayer (default 0 (ms_id m)) (Some m) step false
           (match b with TextResume => true | _ => false end) tm
           (Some (label_of m step))
           (Some (shown_index m step, Z.max (n - 1) 1))
           (Some (format_time
                    (elapsed_seconds (instructions m) (shown_index m step))))
           (Some b)
           (Some (format_step_info (shown_index m step) n)) tms nots)
      = Some (page_state m step TextPause tm' tms' nots)).
  { intros b _. unfold _start_meditation. rewrite no_instructions_widgeted. pcbn.
    destruct (Z.ltb_spec step n).
    - rewrite start_current_step_widgeted by lia. by eexists _, _.
    - by eexists _, _. }
  destruct btn.
  - exact (Hplay TextStart ltac:(done)).
  - simpl. unfold _pause_meditation. destruct tm; pcbn; by eexists _, _.
  - exact (Hplay TextResume ltac:(done)).
  - exact (Hplay TextComplete ltac:(done)).
Qed.

Lemma restart_page step btn tm tms nots :
  ∃ tm' tms',
    _restart (page_state m step btn tm tms nots)
    = Some (page_state m 0 TextStart tm' tms' nots).
Proof.
  unfold _restart, page_state.
  destruct tm; pcbn; rewrite update_display_widgeted by lia;
    eexists _, _; reflexivity.
Qed.

(** The shared tail of [_previous_step] and [_next_step] on a page. *)
Lemma move_to_page step k btn tm tms nots :
  0 ≤ k < n →
  ∃ tm' tms',
    (s3 ← _update_display
            (set_current_step k (cancel_timer (page_state m step btn tm tms nots)));
     if is_playing s3 then _start_current_step s3 else Some s3)
    = Some (page_state m k btn tm' tms' nots).
Proof.
  intros Hk. unfold page_state. destruct tm; pcbn;
    rewrite update_display_widgeted by lia; simpl;
    destruct btn; simpl;
    rewrite ?start_current_step_widgeted by lia; by eexists _, _.
Qed.

Lemma previous_step_page step btn tm tms nots :
  0 ≤ step ≤ n →
  ∃ tm' tms',
    _previous_step (page_state m step btn tm tms nots)
    = Some (page_state m (visible_next m ClickPrevious false step btn).1
              btn tm' tms' nots).
Proof.
  intros Hstep. unfold _previous_step. simpl visible_next.
  change (current_step (page_state m step btn tm tms nots)) with step.
  cbn [fst]. destruct (Z.ltb_spec 0 step).
  - replace (current_step (cancel_timer (page_state m step btn tm tms nots)))
      with step by (by destruct tm).
    apply move_to_page. lia.
  - by eexists _, _.
Qed.

Lemma next_step_page step btn tm tms nots :
  0 ≤ step ≤ n →
  ∃ tm' tms',
    _next_step (page_state m step btn tm tms nots)
    = Some (page_state m (visible_next m ClickNext false step btn).1
              btn tm' tms' nots).
Proof.
  intros Hstep. unfold _next_step. simpl visible_next.
  unfold page_state at 1. rewrite no_instructions_widgeted. fold (page_state m step btn tm tms nots).
  change (current_step (page_state m step btn tm tms nots)) with step.
  change (session_instructions (page_state m step btn tm tms nots))
    with (instructions m).
  cbn [fst]. destruct (Z.ltb_spec step (n - 1)).
  - replace (current_step (cancel_timer (page_state m step btn tm tms nots)))
      with step by (by destruct tm).
    apply move_to_page. lia.
  - by eexists _, _.
Qed.

Lemma meditation_complete_widgeted id step pl pa tm il pb tl btn si tms nots :
  _meditation_complete
    (mkPlayer id (Some m) step pl pa tm (Some il) pb tl (Some btn) si tms nots)
  = mkPlayer id (Some m) step false pa None (Some TextMeditationComplete) pb tl
      (Some TextComplete) si (cancelled tm tms) (nots ++ [SessionComplete]).
Proof. unfold _meditation_complete. by destruct tm; pcbn. Qed.

Lemma elapse_page h step btn tm tms nots :
  0 ≤ step ≤ n →
  (btn = TextPause → timer_pending (page_state m step btn tm tms nots) h = true →
   step < n) →
  ∃ tm' tms' nots',
    elapse h (page_state m step btn tm tms nots)
    = Some (page_state m
              (visible_next m (Elapse h)
                 (timer_pending (page_state m step btn tm tms nots) h) step btn).1
              (visible_next m (Elapse h)
                 (timer_pending (page_state m step btn tm tms nots) h) step btn).2
              tm' tms' nots').
Proof.
  intros Hstep Hlt. unfold elapse, timer_pending in *.
  change (timers (page_state m step btn tm tms nots)) with tms in *.
  destruct (tms !! h) as [t|] eqn:Ht; [|by eexists _, _, _].
  destruct (is_pending t) eqn:Hp; [|by eexists _, _, _].
  unfold _advance_to_next_step.
  destruct btn; simpl visible_next; cbn [fst snd]; try (by eexists _, _, _).
  specialize (Hlt eq_refl eq_refl). pcbn.
  destruct (Z.leb_spec n (step + 1)); destruct (Z.ltb_spec (step + 1) n);
    try lia.
  - rewrite meditation_complete_widgeted.
    eexists _, _, _. unfold page_state.
    rewrite (shown_index_end (step + 1)), (label_of_end (step + 1)) by lia.
    rewrite (shown_index_in step) by lia.
    replace (n - 1) with step by lia. reflexivity.
  - rewrite start_current_step_widgeted by lia. by eexists _, _, _.
Qed.


Lemma loaded_page : loaded m = Some (page_state m 0 TextStart None [] []).
Proof.
  unfold loaded, create. pcbn. by rewrite update_display_widgeted by lia.
Qed.

Lemma handle_page e step btn tm tms nots :
  0 ≤ step ≤ n →
  (btn = TextPause →
   event_pending e (page_state m step btn tm tms nots) = true → step < n) →
  ∃ tm' tms' nots',
    handle e (page_state m step btn tm tms nots)
    = Some (page_state m
              (visible_next m e
                 (event_pending e (page_state m step btn tm tms nots)) step btn).1
              (visible_next m e
                 (event_pending e (page_state m step btn tm tms nots)) step btn).2
              tm' tms' nots').
Proof.
  intros Hstep Hlt. destruct e as [| | | |h]; simpl handle.
  - destruct (toggle_play_page step btn tm tms nots Hstep) as (tm' & tms' & ->).
    by eexists _, _, _.
  - destruct (previous_step_page step btn tm tms nots Hstep) as (tm' & tms' & ->).
    by eexists _, _, _.
  - destruct (next_step_page step btn tm tms nots Hstep) as (tm' & tms' & ->).
    by eexists _, _, _.
  - destruct (restart_page step btn tm tms nots) as (tm' & tms' & ->).
    by eexists _, _, _.
  - by apply elapse_page.
Qed.

Lemma is_page_intro step btn tm tms nots :
  is_page m (page_state m step btn tm tms nots).
Proof. by exists btn. Qed.

Lemma Inv_pending_in_range s h :
  Inv s → timer_pending s h = true →
  current_step s < len (session_instructions s).
Proof.
  intros HI Hp. unfold timer_pending in Hp.
  destruct (timers s !! h) as [t|] eqn:Ht; [|done].
  assert (Hne' : pending_timers s ≠ []) by (by eapply pending_lookup).
  rewrite (inv_pending s HI) in Hne'.
  destruct (armed_delay s) as [d|] eqn:Ha; [|done].
  by destruct (armed_delay_Some s d Ha) as (_ & Hlt & _).
Qed.

(** An event on a page state that satisfies the invariant: where it leads. *)
Lemma handle_visible e s :
  Inv s → is_page m s →
  ∃ s', handle e s = Some s'
    ∧ Inv s' ∧ is_page m s'
    ∧ ∀ btn, play_button s = Some btn →
        (current_step s', play_button s')
        = ((visible_next m e (event_pending e s) (current_step s) btn).1,
           Some (visible_next m e (event_pending e s) (current_step s) btn).2).
Proof.
  intros HI [btn Hs].
  assert (Hrange := inv_range s HI).
  assert (Hl : session_instructions s = instructions m) by (by rewrite Hs).
  rewrite Hl in Hrange.
  assert (Hpend : event_pending e s = true → current_step s < n).
  { intros Hpend. rewrite <- Hl. destruct e; try done.
    by eapply Inv_pending_in_range. }
  destruct (handle_facts e s HI) as (s' & He & HI' & _).
  exists s'. split; [done|]. split; [done|].
  revert Hs He Hrange Hpend.
  generalize (current_step s) (timer s) (timers s) (notifications s).
  intros step tm tms nots -> He Hrange Hpend.
  destruct (handle_page e step btn tm tms nots Hrange)
    as (tm' & tms' & nots' & Hp); [auto|].
  assert (Hs' : s' = page_state m
            (visible_next m e
               (event_pending e (page_state m step btn tm tms nots)) step btn).1
            (visible_next m e
               (event_pending e (page_state m step btn tm tms nots)) step btn).2
            tm' tms' nots') by congruence.
  split.
  - rewrite Hs'. apply is_page_intro.
  - intros b Hb. injection Hb as <-. by rewrite Hs'.
Qed.

Lemma run_page events s s' :
  Inv s → is_page m s → run events s = Some s' → Inv s' ∧ is_page m s'.
Proof.
  revert s. induction events as [|e events IH]; intros s HI Hp; simpl.
  - by intros [= <-].
  - destruct (handle_visible e s HI Hp) as (s1 & -> & HI1 & Hp1 & _). simpl.
    by apply IH.
Qed.

Lemma reachable_page s : reachable m s → Inv s ∧ is_page m s.
Proof.
  intros (s0 & events & Hl & Hrun).
  destruct (loaded_spec m) as (s0' & Hl' & HI0 & _).
  assert (s0' = s0) as -> by congruence.
  eapply run_page; [done| |done].
  rewrite loaded_page in Hl. injection Hl as <-. apply is_page_intro.
Qed.


Lemma toggle_play_starts step btn tm tms nots :
  btn ≠ TextPause → 0 ≤ step < n →
  _toggle_play (page_state m step btn tm tms nots)
  = Some (page_state m step TextPause (armed_timer m step tm tms).1
            (armed_timer m step tm tms).2 nots).
Proof.
  intros Hbtn Hstep. unfold _toggle_play, page_state.
  rewrite no_instructions_widgeted.
  destruct btn; try done; pcbn; unfold _start_meditation;
    rewrite no_instructions_widgeted; pcbn;
    (destruct (Z.ltb_spec step n); [|lia]);
    by rewrite start_current_step_widgeted by lia.
Qed.

Lemma elapse_playing h step tm tms nots t :
  tms !! h = Some t → is_pending t = true → 0 ≤ step < n →
  elapse h (page_state m step TextPause tm tms nots)
  = Some (if step + 1 <? n
          then page_state m (step + 1) TextPause
                 (armed_timer m (step + 1) tm (alter fired h tms)).1
                 (armed_timer m (step + 1) tm (alter fired h tms)).2 nots
          else page_state m (step + 1) TextComplete None
                 (cancelled tm (alter fired h tms)) (nots ++ [SessionComplete])).
Proof.
  intros Ht Hp Hstep. unfold elapse.
  change (timers (page_state m step TextPause tm tms nots)) with tms.
  rewrite Ht, Hp. unfold _advance_to_next_step. pcbn.
  destruct (Z.leb_spec n (step + 1)); destruct (Z.ltb_spec (step + 1) n);
    try lia.
  - rewrite meditation_complete_widgeted. unfold page_state.
    rewrite (shown_index_end (step + 1)), (label_of_end (step + 1)) by lia.
    rewrite (shown_index_in step) by lia.
    replace (n - 1) with step by lia. reflexivity.
  - by rewrite start_current_step_widgeted by lia.
Qed.

End NonEmpty.


(** X4. On the page of a session with instructions the instruction
    label and the step counter follow the step: inside the list they
    show the text of the current instruction and "Step k+1 of n"; once
    the step has left the list they show the completion message and the
    counter of the last step. The prompt to click play is never shown. *)
Theorem display_follows_step (m : MeditationSession) (s : PlayerState) :
  0 < len (instructions m) →
  reachable m s →
  (current_step s < len (instructions m) →
   ∃ inst, instructions m !! Z.to_nat (current_step s) = Some inst
     ∧ instruction_label s = Some (TextInstruction (instruction_text inst))
     ∧ step_info_label s
       = Some (format_step_info (current_step s) (len (instructions m))))
  ∧ (current_step s = len (instructions m) →
     instruction_label s = Some TextMeditationComplete
     ∧ step_info_label s
       = Some (format_step_info (len (instructions m) - 1) (len (instructions m))))
  ∧ instruction_label s ≠ Some TextClickPlay.
Proof.
  intros Hne Hr. destruct (reachable_page m Hne s Hr) as [HI [btn Hs]].
  assert (Hrange := inv_range s HI).
  assert (Hl : session_instructions s = instructions m) by (by rewrite Hs).
  rewrite Hl in Hrange.
  assert (Hlab : instruction_label s = Some (label_of m (current_step s)))
    by (by rewrite Hs).
  assert (Hinfo : step_info_label s
    = Some (format_step_info (shown_index m (current_step s))
              (len (instructions m)))) by (by rewrite Hs).
  split_conj.
  - intros Hlt.
    destruct (py_index_in_range (instructions m) (current_step s))
      as [Hpy [inst Hinst]]; [lia|].
    exists inst. rewrite Hlab, Hinfo, shown_index_in by done.
    unfold label_of. rewrite Hpy, Hinst.
    by destruct (Z.ltb_spec (current_step s) (len (instructions m))); [|lia].
  - intros Heq. rewrite Hlab, Hinfo, shown_index_end, label_of_end by lia. done.
  - rewrite Hlab. unfold label_of.
    destruct (Z.ltb_spec (current_step s) (len (instructions m))); [|done].
    destruct (py_index_in_range (instructions m) (current_step s))
      as [Hpy [inst Hinst]]; [lia|].
    by rewrite Hpy, Hinst.
Qed.

Lemma display_follows_step_witness :
  ∃ s, page_after demo_session [ClickPlay; ClickNext] = Some s
    ∧ instruction_label s = Some (TextInstruction "Breathe")
    ∧ step_info_label s = Some "Step 2 of 3"%string.
Proof.
  eexists. split; [vm_compute; reflexivity|].
  destruct (display_follows_step demo_session
              (default (mkPlayer 0 None 0 false false None None None None None
                          None [] [])
                 (page_after demo_session [ClickPlay; ClickNext])))
    as (H & _ & _).
  - vm_compute. reflexivity.
  - apply (page_after_reachable _ [ClickPlay; ClickNext]). vm_compute. reflexivity.
  - destruct H as (inst & Hinst & Hlab & Hinfo); [vm_compute; reflexivity|].
    split; [|exact Hinfo].
    vm_compute in Hinst. injection Hinst as <-. exact Hlab.
Defined.

(** X5. The progress bar of a page with instructions shows the fraction
    (index of the step shown) / max(n - 1, 1): its divisor is never 0 and
    the fraction lies between 0 and 1. It is full from the moment the
    last step is entered, and with a single instruction it stays at 0,
    also after completion. *)
Theorem progress_bar_in_unit_range (m : MeditationSession) (s : PlayerState) :
  0 < len (instructions m) →
  reachable m s →
  ∃ a b, progress_bar s = Some (a, b)
    ∧ 0 ≤ a ≤ b ∧ 1 ≤ b
    ∧ a = Z.min (current_step s) (len (instructions m) - 1)
    ∧ b = Z.max (len (instructions m) - 1) 1
    ∧ (len (instructions m) = 1 → a = 0)
    ∧ (1 < len (instructions m) →
       len (instructions m) - 1 ≤ current_step s → a = b).
Proof.
  intros Hne Hr. destruct (reachable_page m Hne s Hr) as [HI [btn Hs]].
  assert (Hrange := inv_range s HI).
  assert (Hl : session_instructions s = instructions m) by (by rewrite Hs).
  rewrite Hl in Hrange.
  exists (shown_index m (current_step s)), (Z.max (len (instructions m) - 1) 1).
  split; [by rewrite Hs|].
  unfold shown_index.
  destruct (Z.ltb_spec (current_step s) (len (instructions m))); lia.
Qed.

Lemma progress_bar_in_unit_range_witness :
  ∃ s, page_after (session_of [Some 30]) [ClickPlay; Elapse 0%nat] = Some s
    ∧ current_step s = 1
    ∧ progress_bar s = Some (0, 1).
Proof.
  eexists. split; [vm_compute; reflexivity|]. split; [reflexivity|].
  destruct (progress_bar_in_unit_range (session_of [Some 30])
              (default (mkPlayer 0 None 0 false false None None None None None
                          None [] [])
                 (page_after (session_of [Some 30]) [ClickPlay; Elapse 0%nat])))
    as (a & b & Hp & _ & _ & _ & Hb & Ha & _).
  - vm_compute. reflexivity.
  - apply (page_after_reachable _ [ClickPlay; Elapse 0%nat]).
    vm_compute. reflexivity.
  - etrans; [exact Hp|]. rewrite Hb, Ha; reflexivity.
Defined.

(** X6. On the page of a session with instructions the caption of the
    play button tells the mode: the player is playing exactly when the
    button reads Pause and paused exactly when it reads Resume; so it is
    never playing and paused at once. *)
Theorem button_caption_tells_mode (m : MeditationSession) (s : PlayerState) :
  0 < len (instructions m) →
  reachable m s →
  (is_playing s = true ↔ play_button s = Some TextPause)
  ∧ (is_paused s = true ↔ play_button s = Some TextResume)
  ∧ ¬ (is_playing s = true ∧ is_paused s = true).
Proof.
  intros Hne Hr. destruct (reachable_page m Hne s Hr) as [_ [btn Hs]].
  rewrite Hs. simpl. by destruct btn; split_conj; try split; try done; intros [? ?].
Qed.

Lemma button_caption_tells_mode_witness :
  ∃ s, page_after demo_session [ClickPlay; ClickPlay; ClickNext] = Some s
    ∧ is_paused s = true ∧ play_button s = Some TextResume.
Proof.
  eexists. split; [vm_compute; reflexivity|]. split; [reflexivity|].
  apply (button_caption_tells_mode demo_session).
  - vm_compute. reflexivity.
  - apply (page_after_reachable _ [ClickPlay; ClickPlay; ClickNext]).
    vm_compute. reflexivity.
  - reflexivity.
Defined.


Lemma pending_of_visible s s' :
  Inv s → Inv s' → visible s = visible s' →
  pending_timers s = pending_timers s'.
Proof.
  intros HI HI' Hv. rewrite (inv_pending s HI), (inv_pending s' HI').
  unfold visible in Hv.
  injection Hv as _ Hs Hc Hp _ _ _ _ _ _.
  unfold armed_delay, session_instructions. by rewrite Hs, Hc, Hp.
Qed.

Lemma visible_page m s btn :
  is_page m s → play_button s = Some btn →
  visible s = visible (page_state m (current_step s) btn None [] []).
Proof.
  intros [b Hs] Hb. rewrite Hs in Hb. injection Hb as ->. by rewrite Hs at 1.
Qed.

Lemma playing_non_empty m s :
  reachable m s → is_playing s = true → 0 < len (instructions m).
Proof.
  intros Hr Hp. destruct (reachable_Inv m s Hr) as [HI Hs].
  rewrite <- (reachable_instructions m s Hr).
  apply no_instructions_len; [apply (inv_session s HI)|].
  by apply (inv_playing s HI).
Qed.

(** Two events in a row on a page with instructions. *)
Lemma two_events m s e1 e2 btn :
  0 < len (instructions m) → reachable m s → play_button s = Some btn →
  ∃ s1 s2 btn1 btn2 step1 step2,
    handle e1 s = Some s1 ∧ handle e2 s1 = Some s2
    ∧ Inv s ∧ Inv s2
    ∧ (step1, btn1) = visible_next m e1 (event_pending e1 s) (current_step s) btn
    ∧ (step2, btn2) = visible_next m e2 (event_pending e2 s1) step1 btn1
    ∧ visible s = visible (page_state m (current_step s) btn None [] [])
    ∧ visible s2 = visible (page_state m step2 btn2 None [] []).
Proof.
  intros Hne Hr Hb. destruct (reachable_page m Hne s Hr) as [HI Hp].
  destruct (handle_visible m Hne e1 s HI Hp) as (s1 & He1 & HI1 & Hp1 & Hv1).
  specialize (Hv1 btn Hb). injection Hv1 as Hc1 Hb1.
  destruct (handle_visible m Hne e2 s1 HI1 Hp1) as (s2 & He2 & HI2 & Hp2 & Hv2).
  specialize (Hv2 _ Hb1). injection Hv2 as Hc2 Hb2.
  rewrite Hc1 in Hc2.
  set (v1 := visible_next m e1 (event_pending e1 s) (current_step s) btn) in *.
  set (v2 := visible_next m e2 (event_pending e2 s1) v1.1 v1.2) in *.
  exists s1, s2, v1.2, v2.2, v1.1, v2.1. split_conj; try done.
  - symmetry. apply surjective_pairing.
  - symmetry. apply surjective_pairing.
  - by apply visible_page.
  - rewrite <- Hc2. apply visible_page; [done|].
    rewrite Hb2. by rewrite Hc1.
Qed.

(** X7. Pausing and resuming brings the page back to what it showed:
    the same step, mode, labels and button; and the timer pending
    afterwards has the full duration of the step again, whatever part of
    it had run before the pause. *)
Theorem pause_then_resume (m : MeditationSession) (s : PlayerState) :
  reachable m s →
  is_playing s = true →
  ∃ s1 s2, handle ClickPlay s = Some s1
    ∧ handle ClickPlay s1 = Some s2
    ∧ is_paused s1 = true
    ∧ visible s2 = visible s
    ∧ pending_timers s2 = pending_timers s.
Proof.
  intros Hr Hplay. assert (Hne := playing_non_empty m s Hr Hplay).
  destruct (reachable_page m Hne s Hr) as [_ [btn Hs]].
  assert (Hb : play_button s = Some TextPause).
  { rewrite Hs in Hplay |- *. simpl in *. by destruct btn. }
  destruct (two_events m s ClickPlay ClickPlay TextPause Hne Hr Hb)
    as (s1 & s2 & b1 & b2 & c1 & c2 & He1 & He2 & HI & HI2 & E1 & E2 & Hv & Hv2).
  simpl in E1. injection E1 as -> ->. simpl in E2. injection E2 as -> ->.
  exists s1, s2. split_conj; try done.
  - destruct (reachable_Inv m s Hr) as [HI0 _].
    destruct (toggle_play_spec s HI0) as (s1' & He1' & _ & _ & _ & _ & _ & _ & _ & Hpa).
    simpl in He1. assert (s1' = s1) as -> by congruence. by apply Hpa.
  - congruence.
  - apply pending_of_visible; [done|done|congruence].
Qed.

Lemma pause_then_resume_witness :
  ∃ s s2, page_after demo_session [ClickPlay] = Some s
    ∧ run [ClickPlay; ClickPlay] s = Some s2
    ∧ pending_timers s2 = [mkTimer 30 Pending].
Proof.
  eexists.
  destruct (pause_then_resume demo_session
              (default (mkPlayer 0 None 0 false false None None None None None
                          None [] [])
                 (page_after demo_session [ClickPlay])))
    as (s1 & s2 & H1 & H2 & _ & _ & Hp).
  - apply (page_after_reachable _ [ClickPlay]). vm_compute. reflexivity.
  - vm_compute. reflexivity.
  - exists s2. split; [vm_compute; reflexivity|]. split.
    + refine (eq_trans
                (f_equal (λ o, o ≫= (λ s', run [ClickPlay] s')) H1) _).
      simpl in H2 |- *. by rewrite H2.
    + etrans; [exact Hp|]. vm_compute. reflexivity.
Defined.





Lemma no_instructions_of s m :
  session s = Some m → instructions m = [] → no_instructions s = true.
Proof. unfold no_instructions. by intros -> ->. Qed.

(** The page of a session without instructions, and what an event does
    to it. *)
Lemma empty_page_fixed m e :
  instructions m = [] →
  ∃ s0, loaded m = Some s0
    ∧ handle e s0 = Some s0
    ∧ (instruction_label s0, step_info_label s0, time_label s0, play_button s0,
       progress_bar s0)
      = (Some TextClickPlay, Some "Step 0 of 0"%string, Some "00:00"%string,
         Some TextStart, Some (0, 1)).
Proof.
  intros Hnil. unfold loaded, create. simpl truthy. cbv iota.
  unfold _update_display. rewrite (no_instructions_of _ m) by done.
  eexists. split; [reflexivity|]. split; [|reflexivity].
  destruct e as [| | | |h]; simpl handle.
  - unfold _toggle_play. by rewrite (no_instructions_of _ m).
  - reflexivity.
  - unfold _next_step. by rewrite (no_instructions_of _ m).
  - unfold _restart, _update_display.
    by rewrite (no_instructions_of _ m).
  - reflexivity.
Qed.

Lemma empty_page_run m events s0 :
  instructions m = [] → loaded m = Some s0 → run events s0 = Some s0.
Proof.
  intros Hnil Hl.
  induction events as [|e events IH]; simpl; [done|].
  destruct (empty_page_fixed m e Hnil) as (s1 & Hl1 & He & _).
  assert (s1 = s0) as -> by congruence. by rewrite He.
Qed.

Lemma restart_fresh_empty m s :
  instructions m = [] → reachable m s →
  handle ClickRestart s = Some s ∧ loaded m = Some s.
Proof.
  intros Hnil (s0 & events & Hl & Hrun).
  rewrite (empty_page_run m events s0 Hnil Hl) in Hrun.
  injection Hrun as <-.
  destruct (empty_page_fixed m ClickRestart Hnil) as (s1 & Hl1 & He1 & _).
  assert (s1 = s0) as -> by congruence. done.
Qed.

Lemma restart_fresh_non_empty m s :
  0 < len (instructions m) → reachable m s →
  ∃ s', handle ClickRestart s = Some s'
    ∧ visible s' = visible (page_state m 0 TextStart None [] []).
Proof.
  intros Hne Hr. destruct (reachable_Inv m s Hr) as [HI Hs].
  destruct (reachable_page m Hne s Hr) as [_ Hp].
  destruct (handle_visible m Hne ClickRestart s HI Hp)
    as (s1 & He1 & _ & Hp1 & Hv).
  destruct Hp as [btn Hbtn].
  assert (Hbs : play_button s = Some btn) by (rewrite Hbtn; reflexivity).
  specialize (Hv btn Hbs). cbn [visible_next fst snd] in Hv.
  injection Hv as Hc Hb.
  exists s1. split; [exact He1|].
  rewrite (visible_page m s1 TextStart Hp1 Hb). rewrite Hc. reflexivity.
Qed.

(** X9. On the page of a session without instructions nothing ever
    happens: whatever is clicked, and whichever timer events arrive, the
    page stays as it was created, with the prompt to click play,
    "Step 0 of 0", "00:00" and the Start button. *)
Theorem empty_session_page_is_inert (m : MeditationSession)
    (events : list Event) :
  instructions m = [] →
  ∃ s0, loaded m = Some s0
    ∧ page_after m events = Some s0
    ∧ (instruction_label s0, step_info_label s0, time_label s0, play_button s0,
       progress_bar s0)
      = (Some TextClickPlay, Some "Step 0 of 0"%string, Some "00:00"%string,
         Some TextStart, Some (0, 1))
    ∧ is_playing s0 = false ∧ timers s0 = [] ∧ notifications s0 = [].
Proof.
  intros Hnil.
  destruct (empty_page_fixed m ClickPlay Hnil) as (s0 & Hl & _ & Hshow).
  destruct (loaded_spec m) as (s0' & Hl' & _ & _ & _ & Hpl & Htm & Hno & _).
  assert (s0' = s0) as -> by congruence.
  exists s0. split_conj; try done.
  unfold page_after. rewrite Hl. apply (empty_page_run m events s0 Hnil Hl).
Qed.

Lemma empty_session_page_is_inert_witness :
  page_after (session_of [])
    [ClickPlay; ClickNext; Elapse 0%nat; ClickRestart; ClickPrevious]
  = loaded (session_of []).
Proof.
  destruct (empty_session_page_is_inert (session_of [])
              [ClickPlay; ClickNext; Elapse 0%nat; ClickRestart; ClickPrevious]
              eq_refl) as (s0 & Hl & Hp & _).
  exact (eq_trans Hp (eq_sym Hl)).
Defined.

(** X10. Restart brings any page back to what it showed when it was
    opened: step 0, not playing, not paused, the Start button and the
    labels of the fresh page; no timer is left pending. Only the
    notifications shown so far and the used timers remain. *)
Theorem restart_shows_fresh_page (m : MeditationSession) (s : PlayerState) :
  reachable m s →
  ∃ s' s0, handle ClickRestart s = Some s'
    ∧ loaded m = Some s0
    ∧ visible s' = visible s0
    ∧ pending_timers s' = []
    ∧ notifications s' = notifications s.
Proof.
  intros Hr. destruct (reachable_Inv m s Hr) as [HI Hs].
  destruct (restart_spec s HI) as (s' & He & HI' & _ & Hc & Hpl & Hnot & _).
  assert (Hnil : pending_timers s' = []) by (by apply Inv_no_pending_rest).
  assert (He' : handle ClickRestart s = Some s') by exact He.
  clear He.
  destruct (decide (0 < len (instructions m))) as [Hne|Hempty].
  - destruct (restart_fresh_non_empty m s Hne Hr) as (s1 & He1 & Hv).
    assert (s1 = s') as -> by congruence.
    exists s', (page_state m 0 TextStart None [] []).
    split; [exact He'|]. split; [by apply loaded_page|]. by split_conj.
  - assert (Hempty' : instructions m = []).
    { unfold len in Hempty. destruct (instructions m); [done|simpl in Hempty; lia]. }
    destruct (restart_fresh_empty m s Hempty' Hr) as [He1 Hl].
    assert (s' = s) as -> by congruence.
    exists s, s. by split_conj.
Qed.

Lemma restart_shows_fresh_page_witness :
  ∃ s s' s0,
    page_after demo_session [ClickPlay; ClickNext; ClickNext; Elapse 1%nat]
    = Some s
    ∧ handle ClickRestart s = Some s'
    ∧ loaded demo_session = Some s0
    ∧ visible s' = visible s0.
Proof.
  eexists.
  destruct (restart_shows_fresh_page demo_session
              (default (mkPlayer 0 None 0 false false None None None None None
                          None [] [])
                 (page_after demo_session
                    [ClickPlay; ClickNext; ClickNext; Elapse 1%nat])))
    as (s' & s0 & H1 & H2 & H3 & _).
  - apply (page_after_reachable _ [ClickPlay; ClickNext; ClickNext; Elapse 1%nat]).
    vm_compute. reflexivity.
  - exists s', s0. split; [vm_compute; reflexivity|]. by split_conj.
Defined.

(** X11. No sequence of clicks and timer events on the page of a stored
    session makes the player index its instruction list out of range:
    every such sequence ends in a state. *)
Theorem player_never_raises (m : MeditationSession) (events : list Event) :
  ∃ s, page_after m events = Some s
    ∧ 0 ≤ current_step s ≤ len (instructions m)
    ∧ session s = Some m.
Proof.
  destruct (run_total m events) as (s0 & s & Hl & Hrun).
  exists s. split; [unfold page_after; by rewrite Hl|].
  assert (Hr : reachable m s) by (by exists s0, events).
  destruct (reachable_Inv m s Hr) as [HI Hs]. split; [|done].
  rewrite <- (reachable_instructions m s Hr). apply (inv_range s HI).
Qed.


Section Autoplay.

Variable m : MeditationSession.
Hypothesis Hne : 0 < len (instructions m).
Hypothesis Hdur :
  Forall (fun i => has_duration (duration_seconds i) = true) (instructions m).

Lemma armed_timer_arms (k : nat) tm tms :
  (k < length (instructions m))%nat →
  ∃ d, armed_timer m (Z.of_nat k) tm tms
       = (Some (length tms), tms ++ [mkTimer d Pending]).
Proof.
  intros Hk. unfold armed_timer. rewrite Nat2Z.id.
  destruct (lookup_lt_is_Some_2 (instructions m) k Hk) as [inst Hinst].
  rewrite Hinst.
  assert (Hd : has_duration (duration_seconds inst) = true).
  { eapply Forall_forall in Hdur; [exact Hdur|].
    by eapply list_elem_of_lookup_2. }
  rewrite Hd. by eexists.
Qed.

Lemma autoplay_start :
  ∃ s, handle ClickPlay (page_state m 0 TextStart None [] []) = Some s
       ∧ autoplay_at m 0 s.
Proof.
  simpl handle. rewrite toggle_play_starts by (done || lia).
  destruct (armed_timer_arms 0 None []) as [d Hd].
  { unfold len in Hne. lia. }
  change (Z.of_nat 0) with 0 in Hd. rewrite Hd. simpl.
  eexists. split; [done|]. by exists [mkTimer d Pending], (mkTimer d Pending).
Qed.

Lemma autoplay_step (k : nat) s :
  (S k < length (instructions m))%nat → autoplay_at m k s →
  ∃ s', handle (Elapse k) s = Some s' ∧ autoplay_at m (S k) s'.
Proof.
  intros Hk (tms & t & -> & Hlen & Ht & Hp). simpl handle.
  rewrite (elapse_playing m Hne k (Z.of_nat k) (Some k) tms [] t Ht Hp)
    by (unfold len; lia).
  destruct (Z.ltb_spec (Z.of_nat k + 1) (len (instructions m)));
    [|unfold len in *; lia].
  replace (Z.of_nat k + 1) with (Z.of_nat (S k)) by lia.
  destruct (armed_timer_arms (S k) (Some k) (alter fired k tms) Hk) as [d Hd].
  rewrite Hd. simpl. rewrite length_alter, Hlen.
  eexists. split; [done|].
  exists (alter fired k tms ++ [mkTimer d Pending]), (mkTimer d Pending).
  split_conj; try done.
  - rewrite length_app, length_alter, Hlen. simpl. lia.
  - rewrite lookup_app_r by (rewrite length_alter; lia).
    by rewrite length_alter, Hlen, Nat.sub_diag.
Qed.

Lemma autoplay_last (k : nat) s :
  S k = length (instructions m) → autoplay_at m k s →
  ∃ tms',
    handle (Elapse k) s
    = Some (page_state m (len (instructions m)) TextComplete None tms'
              [SessionComplete])
    ∧ length tms' = length (instructions m).
Proof.
  intros Hk (tms & t & -> & Hlen & Ht & Hp). simpl handle.
  rewrite (elapse_playing m Hne k (Z.of_nat k) (Some k) tms [] t Ht Hp)
    by (unfold len; lia).
  destruct (Z.ltb_spec (Z.of_nat k + 1) (len (instructions m)));
    [unfold len in *; lia|].
  replace (Z.of_nat k + 1) with (len (instructions m)) by (unfold len; lia).
  eexists. split; [done|]. simpl. by rewrite !length_alter, Hlen.
Qed.

Lemma autoplay_run (j k : nat) s :
  (k + j < length (instructions m))%nat → autoplay_at m k s →
  ∃ s', run (Elapse <$> seq k j) s = Some s' ∧ autoplay_at m (k + j) s'.
Proof.
  revert k s. induction j as [|j IH]; intros k s Hk Hs.
  - exists s. by rewrite Nat.add_0_r.
  - change (run (Elapse <$> seq k (S j)) s)
      with (handle (Elapse k) s ≫= run (Elapse <$> seq (S k) j)).
    destruct (autoplay_step k s) as (s1 & -> & Hs1); [lia|done|].
    cbn [mbind option_bind].
    destruct (IH (S k) s1) as (s' & Hrun & Hs'); [lia|done|].
    exists s'. split; [done|]. by replace (k + S j)%nat with (S k + j)%nat by lia.
Qed.

End Autoplay.


Lemma run_app events1 events2 s :
  run (events1 ++ events2) s = run events1 s ≫= run events2.
Proof.
  revert s. induction events1 as [|e events1 IH]; intros s; simpl; [done|].
  destruct (handle e s) as [s1|]; simpl; [apply IH|done].
Qed.

(** X12. A session all of whose instructions have a positive duration
    plays through unattended: after Play, when [k] timers have run out
    one after the other, the player is in step [k], still playing as long
    as [k] is inside the list; the timer of the last step completes the
    session, with one notification, the Complete button, the completion
    message and no timer left pending. *)
Theorem unattended_play_through (m : MeditationSession) (k : nat) :
  0 < len (instructions m) →
  Forall (fun i => has_duration (duration_seconds i) = true) (instructions m) →
  (k ≤ length (instructions m))%nat →
  ∃ s, page_after m (ClickPlay :: (Elapse <$> seq 0 k)) = Some s
    ∧ current_step s = Z.of_nat k
    ∧ (if (k <? length (instructions m))%nat
       then is_playing s = true
            ∧ play_button s = Some TextPause
            ∧ notifications s = []
       else is_playing s = false
            ∧ play_button s = Some TextComplete
            ∧ instruction_label s = Some TextMeditationComplete
            ∧ notifications s = [SessionComplete]
            ∧ pending_timers s = []).
Proof.
  intros Hne Hdur Hk.
  destruct (autoplay_start m Hne Hdur) as (s0 & He0 & Hs0).
  assert (Hpre : ∀ events,
    page_after m (ClickPlay :: events) = run events s0).
  { intros events. unfold page_after. rewrite (loaded_page m Hne).
    cbn [mbind option_bind run]. rewrite He0. done. }
  rewrite Hpre.
  destruct (Nat.ltb_spec k (length (instructions m))) as [Hlt|Hge].
  - destruct (autoplay_run m Hne Hdur k 0 s0) as (s & Hrun & Hs); [lia|done|].
    exists s. split; [done|].
    destruct Hs as (tms & t & -> & _). by split_conj.
  - assert (Hk' : k = S (k - 1)) by (unfold len in Hne; lia).
    assert (Hfinal : ∃ tms',
      run (Elapse <$> seq 0 k) s0
      = Some (page_state m (len (instructions m)) TextComplete None tms'
                [SessionComplete])).
    { rewrite Hk', seq_S, fmap_app, run_app. simpl "+"%nat.
      destruct (autoplay_run m Hne Hdur (k - 1) 0 s0) as (s1 & -> & Hs1);
        [lia|done|].
      cbn [mbind option_bind fmap list_fmap run].
      destruct (autoplay_last m Hne (k - 1) s1) as (tms' & -> & Hlen);
        [lia|done|].
      by exists tms'. }
    destruct Hfinal as (tms' & Hrun). rewrite Hrun.
    eexists. split; [done|].
    assert (Hr : reachable m
              (page_state m (len (instructions m)) TextComplete None tms'
                 [SessionComplete])).
    { apply (page_after_reachable m (ClickPlay :: (Elapse <$> seq 0 k))).
      by rewrite Hpre. }
    destruct (reachable_Inv m _ Hr) as [HI _].
    split; [unfold len; simpl; lia|].
    split_conj; try done.
    + simpl. by rewrite (label_of_end m) by lia.
    + by apply Inv_no_pending_rest.
Qed.

Lemma unattended_play_through_witness :
  ∃ s, page_after (session_of [Some 30; Some 45])
         [ClickPlay; Elapse 0%nat; Elapse 1%nat] = Some s
    ∧ current_step s = 2
    ∧ notifications s = [SessionComplete].
Proof.
  destruct (unattended_play_through (session_of [Some 30; Some 45]) 2)
    as (s & Hrun & Hc & Hrest).
  - vm_compute. reflexivity.
  - repeat constructor.
  - simpl. lia.
  - exists s. split; [exact Hrun|]. split; [exact Hc|].
    by destruct Hrest as (_ & _ & _ & Hn & _).
Defined.

End PlayerExtras.

(** * Further properties of the library page *)

Module LibraryExtras.
Import MeditationLibrary.

Lemma MeditationType_truthy t : str_truthy (MeditationType_value t) = true.
Proof. by destruct t. Qed.

Lemma DifficultyLevel_truthy d : str_truthy (DifficultyLevel_value d) = true.
Proof. by destruct d. Qed.

Lemma filter_matches t d (l : list MeditationSession) :
  filter (fun m => matches t d m) l
  = match d with
    | Some d' => filter (fun x => difficulty_level x = d')
    | None => id
    end
      (match t with
       | Some t' => filter (fun x => meditation_type x = t')
       | None => id
       end l).
Proof.
  destruct t as [t'|], d as [d'|]; simpl.
  - rewrite list_filter_filter. apply list_filter_iff. intros x.
    unfold matches. rewrite andb_True, !bool_decide_spec. tauto.
  - apply list_filter_iff. intros x.
    unfold matches. rewrite andb_True, !bool_decide_spec. simpl. tauto.
  - apply list_filter_iff. intros x.
    unfold matches. rewrite andb_True, !bool_decide_spec. simpl. tauto.
  - induction l as [|x l IH]; [done|].
    rewrite filter_cons_True by done. by rewrite IH.
Qed.

Lemma update_sessions_display_spec all fs t d c lbl ts ds :
  _update_sessions_display (mkLibrary all fs t d (Some c) lbl ts ds)
  = mkLibrary all fs t d (Some (elements_of fs)) lbl ts ds.
Proof. by destruct fs. Qed.

Lemma apply_filters_spec all fs t d c lbl ts ds :
  _apply_filters (mkLibrary all fs t d (Some c) lbl ts ds)
  = mkLibrary all (filter (fun m => matches t d m) all) t d
      (Some (elements_of (filter (fun m => matches t d m) all))) lbl ts ds.
Proof.
  rewrite filter_matches. unfold _apply_filters.
  destruct t as [t'|], d as [d'|]; simpl;
    rewrite ?MeditationType_truthy; simpl;
    rewrite ?DifficultyLevel_truthy; simpl;
    apply update_sessions_display_spec.
Qed.

Lemma type_select_set_value_page all t d v :
  type_select_set_value v (library_page all t d) = library_page all v d.
Proof.
  unfold type_select_set_value, library_page. cbn [type_select].
  case_bool_decide as Hv; [by subst v|].
  apply apply_filters_spec.
Qed.

Lemma difficulty_select_set_value_page all t d v :
  difficulty_select_set_value v (library_page all t d) = library_page all t v.
Proof.
  unfold difficulty_select_set_value, library_page. cbn [difficulty_select].
  case_bool_decide as Hv; [by subst v|].
  apply apply_filters_spec.
Qed.

Lemma handle_library_page all t d e :
  handle e (library_page all t d)
  = library_page all (choose e (t, d)).1 (choose e (t, d)).2.
Proof.
  destruct e as [v|v|]; simpl.
  - apply type_select_set_value_page.
  - apply difficulty_select_set_value_page.
  - rewrite type_select_set_value_page, difficulty_select_set_value_page.
    apply apply_filters_spec.
Qed.

Lemma run_library_page all events t d :
  run events (library_page all t d)
  = library_page all
      (foldl (fun td e => choose e td) (t, d) events).1
      (foldl (fun td e => choose e td) (t, d) events).2.
Proof.
  revert t d. induction events as [|e events IH]; intros t d; [done|].
  unfold run in *. simpl. rewrite handle_library_page, IH.
  by destruct (choose e (t, d)).
Qed.

Lemma filter_matches_all (l : list MeditationSession) :
  filter (fun m => matches None None m) l = l.
Proof. by rewrite filter_matches. Qed.

(** The store after the page was opened. *)
Lemma index_store db :
  (index db).1
  = match MeditationService.get_active_sessions db with
    | [] => MeditationService.create_sample_data db
    | _ => db
    end.
Proof.
  unfold index, create, _load_sessions. simpl.
  by destruct (MeditationService.get_active_sessions db).
Qed.

Lemma seed_active data l db :
  MeditationService.get_active_sessions (seed data l db)
  = MeditationService.get_active_sessions db
    ++ [(MeditationService.create_session data db).2].
Proof.
  unfold seed. rewrite ServiceExtras.add_enumerated_spec.
  unfold MeditationService.get_active_sessions, MeditationService.create_session.
  cbn [MeditationService.meditation_sessions fst snd].
  rewrite filter_app. by rewrite (filter_cons_True _ _ []) by done.
Qed.

Lemma create_sample_data_active db :
  MeditationService.get_active_sessions (MeditationService.create_sample_data db)
  ≠ [].
Proof.
  rewrite ServiceExtras.create_sample_data_seed, seed_active.
  intros H. by apply app_eq_nil in H as [_ H].
Qed.

Lemma index_active db :
  MeditationService.get_active_sessions (index db).1 ≠ [].
Proof.
  rewrite index_store.
  destruct (MeditationService.get_active_sessions db) eqn:Ha.
  - apply create_sample_data_active.
  - by rewrite Ha.
Qed.

Lemma index_page db :
  (index db).2
  = library_page (MeditationService.get_active_sessions (index db).1) None None.
Proof.
  rewrite index_store. unfold index, create, _load_sessions. simpl.
  unfold library_page. rewrite !filter_matches_all.
  destruct (MeditationService.get_active_sessions db) eqn:Ha; simpl.
  - unfold set_filtered_sessions. simpl.
    by rewrite update_sessions_display_spec.
  - unfold set_filtered_sessions. simpl. by rewrite Ha.
Qed.

Lemma run_index db events :
  run events (index db).2
  = library_page (MeditationService.get_active_sessions (index db).1)
      (chosen events).1 (chosen events).2.
Proof. rewrite index_page. apply run_library_page. Qed.

Lemma cards_library_page all t d :
  cards (library_page all t d)
  = _create_session_card <$> filter (fun m => matches t d m) all.
Proof.
  unfold cards, library_page. cbn [session_container default].
  generalize (filter (fun m => matches t d m) all). intros l.
  destruct l as [|x l]; [done|]. unfold elements_of.
  generalize (x :: l). clear. intros l.
  induction l as [|y l IH]; [done|].
  rewrite !fmap_cons. cbn [mbind list_bind]. cbn [app]. by rewrite <- IH.
Qed.

(** X13. Whatever is chosen or cleared on the library page, in any
    order, the page shows exactly the active sessions of the store that
    pass the type and the difficulty its two selects show, in stored
    order, one card each; the filter attributes of the object equal the
    values of the selects, and the no-match label is shown exactly when
    no session passes. *)
Theorem catalogue_shows_matching_sessions (db : MeditationService.Database)
    (events : list Event) :
  let all := MeditationService.get_active_sessions (index db).1 in
  let s := run events (index db).2 in
  let shown :=
    filter (fun m => matches (type_select s) (difficulty_select s) m) all in
  (type_select s, difficulty_select s) = chosen events
  ∧ (selected_type s, selected_difficulty s) = chosen events
  ∧ sessions s = all
  ∧ filtered_sessions s = shown
  ∧ cards s = _create_session_card <$> shown
  ∧ (session_container s = Some [LabelNoSessionsMatch] ↔ shown = []).
Proof.
  intros all s shown. subst s shown all. rewrite run_index.
  rewrite cards_library_page. cbn [library_page type_select difficulty_select
    selected_type selected_difficulty sessions filtered_sessions
    session_container].
  split_and!; try done; try by destruct (chosen events).
  generalize (filter (fun m => matches (chosen events).1 (chosen events).2 m)
                (MeditationService.get_active_sessions (index db).1)).
  intros l. destruct l as [|x l]; [done|]. split; [|done].
  simpl. intros H. by simplify_eq.
Qed.

(** X14. On the library page the two selects do not interfere: choosing
    a type and a difficulty gives the same page in either order, a later
    choice of a select replaces an earlier one, and Clear Filters gives
    back the page as it was opened. *)
Theorem filter_choices_commute (db : MeditationService.Database)
    (events : list Event) (t t' : option MeditationType)
    (d : option DifficultyLevel) :
  let s := run events (index db).2 in
  run [ChooseType t; ChooseDifficulty d] s
  = run [ChooseDifficulty d; ChooseType t] s
  ∧ run [ChooseType t'; ChooseType t] s = run [ChooseType t] s
  ∧ run [ClickClear] s = (index db).2.
Proof.
  intros s. subst s. rewrite run_index, !run_library_page.
  split_and!; try done. by rewrite index_page.
Qed.

(** X15. The filters of the library page give what the service queries
    give on the store: without a choice the active sessions, with a type
    chosen [get_sessions_by_type], with a difficulty chosen
    [get_sessions_by_difficulty], and with both the sessions of the type
    query that have the difficulty. *)
Theorem library_filters_agree_with_service (db : MeditationService.Database)
    (t : MeditationType) (d : DifficultyLevel) :
  let db' := (index db).1 in
  let s0 := (index db).2 in
  filtered_sessions s0 = MeditationService.get_active_sessions db'
  ∧ filtered_sessions (run [ChooseType (Some t)] s0)
    = MeditationService.get_sessions_by_type t db'
  ∧ filtered_sessions (run [ChooseDifficulty (Some d)] s0)
    = MeditationService.get_sessions_by_difficulty d db'
  ∧ filtered_sessions (run [ChooseType (Some t); ChooseDifficulty (Some d)] s0)
    = filter (fun m => difficulty_level m = d)
        (MeditationService.get_sessions_by_type t db').
Proof.
  intros db' s0. subst db' s0. rewrite index_page, !run_library_page.
  cbn [foldl choose fst snd library_page filtered_sessions].
  rewrite !filter_matches.
  unfold MeditationService.get_sessions_by_type,
    MeditationService.get_sessions_by_difficulty,
    MeditationService.get_active_sessions.
  unfold id. rewrite !list_filter_filter.
  split_and!; try done; apply list_filter_iff; intros x; tauto.
Qed.

(** X16. Opening the library page seeds the sample data exactly when
    the store has no active session, and leaves the store alone
    otherwise; either way the opened page shows at least one card, and
    opening the page again on the resulting store changes nothing and
    shows the same page. *)
Theorem library_seeds_once (db : MeditationService.Database) :
  let db' := (index db).1 in
  (MeditationService.get_active_sessions db ≠ [] → db' = db)
  ∧ (MeditationService.get_active_sessions db = []
     → db' = MeditationService.create_sample_data db)
  ∧ cards (index db).2 ≠ []
  ∧ index db' = index db.
Proof.
  intros db'. subst db'.
  assert (Hagain : (index (index db).1).1 = (index db).1).
  { rewrite (index_store (index db).1).
    pose proof (index_active db) as Ha.
    by destruct (MeditationService.get_active_sessions (index db).1). }
  split_and!.
  - intros Ha. rewrite index_store.
    by destruct (MeditationService.get_active_sessions db).
  - intros Ha. rewrite index_store. by rewrite Ha.
  - rewrite index_page, cards_library_page, filter_matches_all.
    pose proof (index_active db) as Ha.
    by destruct (MeditationService.get_active_sessions (index db).1).
  - rewrite (surjective_pairing (index (index db).1)).
    rewrite (surjective_pairing (index db)) at 3.
    f_equal; [done|]. by rewrite !index_page, Hagain.
Qed.

Lemma seed_ok data l db : db_ok db → db_ok (seed data l db).
Proof. intros Hok. by destruct (ServiceExtras.seed_spec data l db Hok). Qed.

Lemma create_sample_data_ok db :
  db_ok db → db_ok (MeditationService.create_sample_data db).
Proof.
  intros Hok. rewrite ServiceExtras.create_sample_data_seed.
  by do 3 apply seed_ok.
Qed.

Lemma index_ok db : db_ok db → db_ok (index db).1.
Proof.
  intros Hok. rewrite index_store.
  destruct (MeditationService.get_active_sessions db); [|done].
  by apply create_sample_data_ok.
Qed.

Lemma find_by_key (l : list MeditationSession) m key :
  NoDup (ms_id <$> l) → m ∈ l → ms_id m = Some key →
  List.find (fun x => bool_decide (ms_id x = Some key)) l = Some m.
Proof.
  induction l as [|x l IH]; intros Hnd Hin Hkey.
  - by apply elem_of_nil in Hin.
  - rewrite fmap_cons in Hnd. apply NoDup_cons in Hnd as [Hx Hnd].
    apply elem_of_cons in Hin as [->|Hin].
    + simpl. by rewrite bool_decide_eq_true_2.
    + simpl. case_bool_decide as Hxk.
      * exfalso. apply Hx. rewrite Hxk, <- Hkey.
        by apply list_elem_of_fmap_2.
      * by apply IH.
Qed.

Lemma get_session_of_member db m :
  db_ok db → m ∈ MeditationService.meditation_sessions db →
  ∃ key, ms_id m = Some key
    ∧ MeditationService.get_session_by_id db (Some key)
      = Some (with_instructions (MeditationService.select_instructions db key) m).
Proof.
  intros Hok Hin. destruct (ok_keys db Hok m Hin) as (key & Hkey & _).
  exists key. split; [done|].
  unfold MeditationService.get_session_by_id, MeditationService.db_get.
  by rewrite (find_by_key _ m key (ok_unique db Hok) Hin Hkey).
Qed.

(** X17. On a well-formed store every card the library page ever shows
    leads somewhere: its Start button carries the key of an active
    stored session, the player page of that key finds the session the
    card describes and opens with the Start button and without a
    not-found notification. *)
Theorem every_card_opens_its_session (db : MeditationService.Database)
    (events : list Event) (c : SessionCard) :
  db_ok db →
  c ∈ cards (run events (index db).2) →
  ∃ key m p,
    card_target c = Some key
    ∧ MeditationService.get_session_by_id (index db).1 (Some key) = Some m
    ∧ c = _create_session_card m
    ∧ is_active m = true
    ∧ MeditationPlayer.meditation_page (index db).1 key = Some p
    ∧ MeditationPlayer.session p = Some m
    ∧ MeditationPlayer.notifications p = []
    ∧ MeditationPlayer.play_button p = Some TextStart.
Proof.
  intros Hok Hc. rewrite run_index, cards_library_page in Hc.
  apply list_elem_of_fmap in Hc as (x & -> & Hx).
  apply list_elem_of_filter in Hx as [_ Hx].
  unfold MeditationService.get_active_sessions in Hx.
  apply list_elem_of_filter in Hx as [Hact Hx].
  destruct (get_session_of_member _ x (index_ok db Hok) Hx) as (key & Hkey & Hget).
  destruct (PlayerFacts.loaded_spec
              (with_instructions
                 (MeditationService.select_instructions (index db).1 key) x))
    as (p & Hp & _ & Hs & _ & _ & _ & Hn & Hb).
  exists key,
    (with_instructions (MeditationService.select_instructions (index db).1 key) x),
    p.
  split_and!; try done.
  by rewrite (PlayerFacts.meditation_page_found _ _ _ Hget).
Qed.

Lemma every_card_opens_its_session_witness :
  ∃ key m p,
    card_target breathing_card = Some key
    ∧ MeditationService.get_session_by_id (index empty_db).1 (Some key) = Some m
    ∧ breathing_card = _create_session_card m
    ∧ is_active m = true
    ∧ MeditationPlayer.meditation_page (index empty_db).1 key = Some p
    ∧ MeditationPlayer.session p = Some m
    ∧ MeditationPlayer.notifications p = []
    ∧ MeditationPlayer.play_button p = Some TextStart.
Proof.
  apply (every_card_opens_its_session empty_db
           [ChooseType (Some BREATHING)] breathing_card).
  - apply ServiceExtras.empty_db_ok.
  - vm_compute. apply list_elem_of_here.
Defined.

(** X18. A card spells the type and the difficulty of its session
    exactly as the options of the two selects spell them, and shows one,
    two or three stars. *)
Theorem card_labels_match_filter_options (m : MeditationSession) :
  card_type (_create_session_card m) = type_options (Some (meditation_type m))
  ∧ card_difficulty (_create_session_card m)
    = difficulty_options (Some (difficulty_level m))
  ∧ (1 ≤ card_stars (_create_session_card m) ≤ 3)%nat.
Proof.
  unfold _create_session_card. simpl.
  split_and!.
  - by destruct (meditation_type m).
  - by destruct (difficulty_level m).
  - by destruct (difficulty_level m); simpl; lia.
  - by destruct (difficulty_level m); simpl; lia.
Qed.


End LibraryExtras.
